(** * Program: the Taichi program execution context

    A shallow embedding of [taichi/program/program.h]: the composite key of
    the JIT evaluator cache with its equality and hash, the per-thread
    compile configuration table, the kernel registry, the kernel id
    counter, and the SNode tree / function registries that the header
    declares.

    Conventions.
    - [int] values are [Z]; [std::size_t] is a 64-bit unsigned word, with
      the wrap-around of shifts and conversions written out.
    - A C++ reference or pointer to an object owned by a container is the
      position that names the object in the container: the key of an
      [unordered_map] entry, the index of a [unique_ptr] in a [vector].
      Objects behind [unique_ptr] never move, so the position is their
      identity for as long as they are owned.
    - [TI_ASSERT] either lets the call continue or aborts it: functions
      guarded by it return an [outcome].
    - Calls are modelled as atomic steps on the program state; the mutexes
      of the header serialise exactly the calls that take them. *)

From Stdlib Require Import ZArith Lia.
From stdpp Require Import base decidable option numbers list gmap strings pretty.

Local Open Scope Z_scope.

(** ** Types that the header uses and other files declare *)

(** [std::thread::id], [DataType], [CompileConfig], [FunctionKey], [SNode],
    the kernel builder callback and [AutodiffMode] come from the standard
    library and from other headers.  They are taken as an interface: the
    operations the header applies to them, and nothing else. *)
Class Externals := {
  (** [std::thread::id]: comparable with [==], usable as a hash-map key. *)
  ThreadId : Type;
  ThreadId_eq_dec :: EqDecision ThreadId;
  ThreadId_countable :: Countable ThreadId;
  (** [std::hash<std::thread::id>{}(t)], a [std::size_t]. *)
  thread_hash : ThreadId -> Z;
  (** [DataType], with its [operator==] and its [hash()] member. *)
  DataType : Type;
  DataType_eq_dec :: EqDecision DataType;
  DataType_hash : DataType -> Z;
  (** [CompileConfig], a value type; [CompileConfig_default] is the value a
      default-constructed map entry holds. *)
  CompileConfig : Type;
  CompileConfig_default : CompileConfig;
  (** [FunctionKey], hashable and comparable. *)
  FunctionKey : Type;
  FunctionKey_eq_dec :: EqDecision FunctionKey;
  FunctionKey_countable :: Countable FunctionKey;
  (** [SNode], the root of a layout tree. *)
  SNode : Type;
  (** [std::function<void(Kernel * )>] and [AutodiffMode]. *)
  KernelBody : Type;
  AutodiffMode : Type;
  kNone : AutodiffMode;
  (** The body synthesised for a single-operator evaluator kernel from the
      operator code, the is-binary flag and the three types. *)
  evaluator_body : Z -> bool -> DataType -> DataType -> DataType -> KernelBody;
}.

(** ** Machine integers *)

(** [std::size_t] on the 64-bit targets the project builds for. *)
Definition size_t_modulus : Z := 2 ^ 64.

(** Conversion to [std::size_t]: reduction modulo [2^64]. *)
Definition to_size_t (z : Z) : Z := z mod size_t_modulus.

(** [x << n] on [std::size_t]: bits shifted past bit 63 are lost. *)
Definition shl_size_t (x n : Z) : Z := to_size_t (Z.shiftl x n).

(** Two's complement wrap-around of a 32-bit [int]. *)
Definition wrap_int (z : Z) : Z := (z + 2 ^ 31) mod 2 ^ 32 - 2 ^ 31.

(** ** Assertions *)

(** The result of a call guarded by [TI_ASSERT]: it returns, or the
    assertion fails and the call is aborted without a value. *)
Inductive outcome (A : Type) : Type :=
| Returned (a : A)
| AssertionFailed.
Arguments Returned {A} a.
Arguments AssertionFailed {A}.

Section Model.
Context `{Externals}.

(** ** JITEvaluatorId *)

Record JITEvaluatorId : Type := {
  thread_id : ThreadId;
  op : Z;
  ret : DataType;
  lhs : DataType;
  rhs : DataType;
  tb : string;
  is_binary : bool;
}.

(** [JITEvaluatorId::unary_op]: asserts [!is_binary]. *)
Definition unary_op (id : JITEvaluatorId) : outcome Z :=
  if is_binary id then AssertionFailed else Returned (op id).

(** [JITEvaluatorId::binary_op]: asserts [is_binary]. *)
Definition binary_op (id : JITEvaluatorId) : outcome Z :=
  if is_binary id then Returned (op id) else AssertionFailed.

(** [JITEvaluatorId::operator==]: the conjunction, left to right, of the
    seven field comparisons. *)
Definition JITEvaluatorId_eqb (a o : JITEvaluatorId) : bool :=
  bool_decide (thread_id a = thread_id o) && bool_decide (op a = op o) &&
  bool_decide (ret a = ret o) && bool_decide (lhs a = lhs o) &&
  bool_decide (rhs a = rhs o) && bool_decide (is_binary a = is_binary o) &&
  bool_decide (tb a = tb o).

(** [std::hash<JITEvaluatorId>::operator()]:
    [((size_t)op | (ret.hash() << 8) | (lhs.hash() << 16) |
      (rhs.hash() << 24) | ((size_t)is_binary << 31))
     ^ (hash(thread_id) << 32)]. *)
Definition hash_JITEvaluatorId (id : JITEvaluatorId) : Z :=
  Z.lxor
    (Z.lor
       (Z.lor
          (Z.lor
             (Z.lor (to_size_t (op id))
                    (shl_size_t (DataType_hash (ret id)) 8))
             (shl_size_t (DataType_hash (lhs id)) 16))
          (shl_size_t (DataType_hash (rhs id)) 24))
       (shl_size_t (to_size_t (Z.b2z (is_binary id))) 31))
    (shl_size_t (thread_hash (thread_id id)) 32).

(** ** Objects owned by the program *)

(** A [Kernel] as its constructor receives it from [Program::kernel]: the
    builder callback, the name and the autodiff mode. *)
Record Kernel : Type := {
  kernel_body : KernelBody;
  kernel_name : string;
  kernel_autodiff_mode : AutodiffMode;
}.

(** A [Function], constructed from the key it is registered under. *)
Record Function : Type := {
  func_key : FunctionKey;
}.

(** An [SNodeTree]: its id and the root it owns. *)
Record SNodeTree : Type := {
  tree_id : Z;
  tree_root : SNode;
}.

(** The [Identifier] made by [get_next_global_id]. *)
Record Identifier : Type := {
  identifier_id : Z;
  identifier_name : string;
}.

(** ** The program state

    The data members of [Program] that the modelled member functions read
    or write.  A null [unique_ptr] in [snode_trees_] is [None];
    [free_snode_tree_ids_] is a [std::stack] with its top at the head;
    [function_map_] holds pointers into [functions_], and the entries of
    [jit_evaluator_cache] are kept in the order of their insertion. *)
Record Program : Type := {
  configs : gmap ThreadId CompileConfig;
  main_thread_id_ : ThreadId;
  kernels : list Kernel;
  jit_evaluator_cache : list (JITEvaluatorId * Kernel);
  jit_evaluator_id : Z;
  global_id_counter_ : Z;
  snode_trees_ : list (option SNodeTree);
  free_snode_tree_ids_ : list Z;
  functions_ : list Function;
  function_map_ : gmap FunctionKey nat;
}.

Definition set_configs (m : gmap ThreadId CompileConfig) (p : Program) : Program :=
  {| configs := m; main_thread_id_ := main_thread_id_ p;
     kernels := kernels p; jit_evaluator_cache := jit_evaluator_cache p;
     jit_evaluator_id := jit_evaluator_id p;
     global_id_counter_ := global_id_counter_ p;
     snode_trees_ := snode_trees_ p;
     free_snode_tree_ids_ := free_snode_tree_ids_ p;
     functions_ := functions_ p; function_map_ := function_map_ p |}.

Definition set_kernels (ks : list Kernel) (p : Program) : Program :=
  {| configs := configs p; main_thread_id_ := main_thread_id_ p;
     kernels := ks; jit_evaluator_cache := jit_evaluator_cache p;
     jit_evaluator_id := jit_evaluator_id p;
     global_id_counter_ := global_id_counter_ p;
     snode_trees_ := snode_trees_ p;
     free_snode_tree_ids_ := free_snode_tree_ids_ p;
     functions_ := functions_ p; function_map_ := function_map_ p |}.

Definition set_jit_evaluator_cache (c : list (JITEvaluatorId * Kernel)) (n : Z)
    (p : Program) : Program :=
  {| configs := configs p; main_thread_id_ := main_thread_id_ p;
     kernels := kernels p; jit_evaluator_cache := c;
     jit_evaluator_id := n;
     global_id_counter_ := global_id_counter_ p;
     snode_trees_ := snode_trees_ p;
     free_snode_tree_ids_ := free_snode_tree_ids_ p;
     functions_ := functions_ p; function_map_ := function_map_ p |}.

Definition set_global_id_counter_ (n : Z) (p : Program) : Program :=
  {| configs := configs p; main_thread_id_ := main_thread_id_ p;
     kernels := kernels p; jit_evaluator_cache := jit_evaluator_cache p;
     jit_evaluator_id := jit_evaluator_id p;
     global_id_counter_ := n;
     snode_trees_ := snode_trees_ p;
     free_snode_tree_ids_ := free_snode_tree_ids_ p;
     functions_ := functions_ p; function_map_ := function_map_ p |}.

Definition set_snode_trees_ (ts : list (option SNodeTree)) (p : Program) : Program :=
  {| configs := configs p; main_thread_id_ := main_thread_id_ p;
     kernels := kernels p; jit_evaluator_cache := jit_evaluator_cache p;
     jit_evaluator_id := jit_evaluator_id p;
     global_id_counter_ := global_id_counter_ p;
     snode_trees_ := ts;
     free_snode_tree_ids_ := free_snode_tree_ids_ p;
     functions_ := functions_ p; function_map_ := function_map_ p |}.

Definition set_free_snode_tree_ids_ (fs : list Z) (p : Program) : Program :=
  {| configs := configs p; main_thread_id_ := main_thread_id_ p;
     kernels := kernels p; jit_evaluator_cache := jit_evaluator_cache p;
     jit_evaluator_id := jit_evaluator_id p;
     global_id_counter_ := global_id_counter_ p;
     snode_trees_ := snode_trees_ p;
     free_snode_tree_ids_ := fs;
     functions_ := functions_ p; function_map_ := function_map_ p |}.

Definition set_functions (fs : list Function) (m : gmap FunctionKey nat)
    (p : Program) : Program :=
  {| configs := configs p; main_thread_id_ := main_thread_id_ p;
     kernels := kernels p; jit_evaluator_cache := jit_evaluator_cache p;
     jit_evaluator_id := jit_evaluator_id p;
     global_id_counter_ := global_id_counter_ p;
     snode_trees_ := snode_trees_ p;
     free_snode_tree_ids_ := free_snode_tree_ids_ p;
     functions_ := fs; function_map_ := m |}.

(** Modelled from the spec: the constructor [Program(Arch)] is defined
    outside the header.  The context it builds has the canonical
    configuration keyed by the constructing thread and owns nothing yet;
    the counters start at the initialisers the header gives them. *)
Definition Program_new (main : ThreadId) (cfg : CompileConfig) : Program :=
  {| configs := {[ main := cfg ]}; main_thread_id_ := main;
     kernels := []; jit_evaluator_cache := [];
     jit_evaluator_id := 0;
     global_id_counter_ := 0;
     snode_trees_ := [];
     free_snode_tree_ids_ := [];
     functions_ := []; function_map_ := ∅ |}.

(** ** The per-thread configuration table *)

(** [configs[k]] of [std::unordered_map]: the entry under [k], inserted
    with a default-constructed value when the key is absent. *)
Definition configs_index (k : ThreadId) (m : gmap ThreadId CompileConfig)
    : CompileConfig * gmap ThreadId CompileConfig :=
  match m !! k with
  | Some c => (c, m)
  | None => (CompileConfig_default, <[k := CompileConfig_default]> m)
  end.

(** [Program::this_thread_config], called by thread [tid].  The returned
    [CompileConfig &] is the entry of [configs] under the returned key.
    When the thread has no entry, [configs[thread_id] = configs[main]]
    evaluates the right-hand side first and assigns a copy of it. *)
Definition this_thread_config (tid : ThreadId) (p : Program) : ThreadId * Program :=
  match configs p !! tid with
  | None =>
      let '(c, m1) := configs_index (main_thread_id_ p) (configs p) in
      let '(_, m2) := configs_index tid m1 in
      (tid, set_configs (<[tid := c]> m2) p)
  | Some _ => (tid, p)
  end.

(** [Program::config]: the entry of the main thread, as a const
    reference. *)
Definition config (p : Program) : ThreadId * Program :=
  let '(_, m) := configs_index (main_thread_id_ p) (configs p) in
  (main_thread_id_ p, set_configs m p).

(** Reading through a configuration reference. *)
Definition read_config (r : ThreadId) (p : Program) : option CompileConfig :=
  configs p !! r.

(** Writing through a reference that [this_thread_config] returned: the
    caller replaces the referenced configuration [c] by [f c], for instance
    by assigning one field. *)
Definition write_config (r : ThreadId) (f : CompileConfig -> CompileConfig)
    (p : Program) : Program :=
  set_configs (alter f r (configs p)) p.

(** ** The kernel registry *)

(** [Program::kernel]: [make_unique<Kernel>(...)], [emplace_back], and a
    reference to [*kernels.back()].  The reference is the index of the new
    element together with the object it names. *)
Definition kernel (body : KernelBody) (name : string) (autodiff_mode : AutodiffMode)
    (p : Program) : (nat * Kernel) * Program :=
  let func := {| kernel_body := body; kernel_name := name;
                 kernel_autodiff_mode := autodiff_mode |} in
  ((length (kernels p), func), set_kernels (kernels p ++ [func]) p).

(** [Program::get_kernel_id] on its function-local [static int id]. *)
Definition get_kernel_id (id : Z) : outcome (Z * Z) :=
  if bool_decide (id < 100000) then Returned (id, wrap_int (id + 1))
  else AssertionFailed.

(** [n] calls of [get_kernel_id] in a row: the ids returned, oldest first,
    and the counter left behind; an assertion failure aborts the run. *)
Fixpoint get_kernel_id_calls (n : nat) (id : Z) : outcome (list Z * Z) :=
  match n with
  | O => Returned ([], id)
  | S n' =>
      match get_kernel_id id with
      | Returned (r, id') =>
          match get_kernel_id_calls n' id' with
          | Returned (rs, id'') => Returned (r :: rs, id'')
          | AssertionFailed => AssertionFailed
          end
      | AssertionFailed => AssertionFailed
      end
  end.

(** [Program::get_next_global_id]. *)
Definition get_next_global_id (name : string) (p : Program) : Identifier * Program :=
  ({| identifier_id := global_id_counter_ p; identifier_name := name |},
   set_global_id_counter_ (wrap_int (global_id_counter_ p + 1)) p).

(** ** The SNode tree registry

    The header declares [allocate_snode_tree_id], [add_snode_tree],
    [destroy_snode_tree] and [get_snode_root] and documents the first; their
    bodies are in the implementation file. *)

(** The slot of [snode_trees_] that the [int] index [i] names: the tree it
    holds, or [None] for a negative index, an index past the end, or a slot
    that holds no tree. *)
Definition snode_tree_slot (i : Z) (ts : list (option SNodeTree)) : option SNodeTree :=
  if bool_decide (0 <= i) then mjoin (ts !! Z.to_nat i) else None.

(** Assignment to the slot that [i] names. *)
Definition set_snode_tree_slot (i : Z) (v : option SNodeTree)
    (ts : list (option SNodeTree)) : list (option SNodeTree) :=
  if bool_decide (0 <= i) then <[Z.to_nat i := v]> ts else ts.

(** The tree [t] is live: the slot its id names holds it. *)
Definition live_snode_tree (p : Program) (t : SNodeTree) : Prop :=
  snode_tree_slot (tree_id t) (snode_trees_ p) = Some t.

(** Modelled from the spec: the body of [Program::allocate_snode_tree_id]
    is missing.  It pops and returns the id on top of the free-id stack if
    the stack is non-empty; otherwise it returns the current size of the
    tree list and grows the list (by a slot that holds no tree yet). *)
Definition allocate_snode_tree_id (p : Program) : Z * Program :=
  match free_snode_tree_ids_ p with
  | id :: rest => (id, set_free_snode_tree_ids_ rest p)
  | [] => (Z.of_nat (length (snode_trees_ p)),
           set_snode_trees_ (snode_trees_ p ++ [None]) p)
  end.

(** Modelled from the spec: the body of [Program::add_snode_tree] is
    missing.  It allocates an id, constructs the tree record and stores it
    in the slot of that id; the returned [SNodeTree *] is given as the tree
    it points to, whose id names the slot.  Materialisation by the backend,
    which [compile_only] switches off, leaves the registry alone. *)
Definition add_snode_tree (root : SNode) (compile_only : bool) (p : Program)
    : SNodeTree * Program :=
  let '(id, p1) := allocate_snode_tree_id p in
  let tree := {| tree_id := id; tree_root := root |} in
  (tree, set_snode_trees_ (set_snode_tree_slot id (Some tree) (snode_trees_ p1)) p1).

(** Modelled from the spec: the body of [Program::destroy_snode_tree] is
    missing.  It pushes the tree's id onto the free-id stack and
    invalidates the tree's slot. *)
Definition destroy_snode_tree (snode_tree : SNodeTree) (p : Program) : Program :=
  set_free_snode_tree_ids_ (tree_id snode_tree :: free_snode_tree_ids_ p)
    (set_snode_trees_
       (set_snode_tree_slot (tree_id snode_tree) None (snode_trees_ p)) p).

(** Modelled from the spec: the body of [Program::get_snode_root] is
    missing.  It returns the root of the tree that [tree_id] names and
    fails, as an assertion does, if [tree_id] names no live tree. *)
Definition get_snode_root (tree_id : Z) (p : Program) : outcome SNode :=
  match snode_tree_slot tree_id (snode_trees_ p) with
  | Some t => Returned (tree_root t)
  | None => AssertionFailed
  end.

(** [add_snode_tree] for each root of a list, first to last: the trees
    made, in order, and the program left behind. *)
Fixpoint add_snode_trees (roots : list SNode) (p : Program)
    : list SNodeTree * Program :=
  match roots with
  | [] => ([], p)
  | r :: roots' =>
      let '(t, p1) := add_snode_tree r false p in
      let '(ts, p2) := add_snode_trees roots' p1 in
      (t :: ts, p2)
  end.

(** ** The function registry *)

(** Modelled from the spec: the body of [Program::create_function] is
    missing.  It returns the existing function for the key if present;
    otherwise it constructs a function, registers it in [functions_] and
    [function_map_], and returns it.  The [Function *] is the index of the
    owning [unique_ptr] in [functions_]. *)
Definition create_function (func_key : FunctionKey) (p : Program) : nat * Program :=
  match function_map_ p !! func_key with
  | Some f => (f, p)
  | None =>
      let f := length (functions_ p) in
      (f, set_functions (functions_ p ++ [{| func_key := func_key |}])
                        (<[func_key := f]> (function_map_ p)) p)
  end.

(** The function registry is consistent: the pointer registered under a
    key names the function constructed from that key, and every owned
    function is the one registered under its key. *)
Definition function_registry_wf (p : Program) : Prop :=
  (forall k f, function_map_ p !! k = Some f ->
               functions_ p !! f = Some {| func_key := k |}) /\
  (forall f fn, functions_ p !! f = Some fn ->
                function_map_ p !! func_key fn = Some f).

(** ** The JIT evaluator cache *)

(** [jit_evaluator_cache.find(id)]: the first entry whose key compares
    equal to [id] under [operator==], with its position. *)
Definition jit_evaluator_cache_find (id : JITEvaluatorId)
    (c : list (JITEvaluatorId * Kernel)) : option (nat * (JITEvaluatorId * Kernel)) :=
  list_find (fun e => JITEvaluatorId_eqb id (fst e) = true) c.

(** Modelled from the spec: the member function that fills
    [jit_evaluator_cache] is outside the header.  It builds the id with the
    calling thread's identity and looks it up; on a hit it returns the cached
    kernel; on a miss it synthesises the evaluator kernel, named after the
    counter [jit_evaluator_id], inserts it under the id and returns it.  The
    [Kernel *] is the position of the owning cache entry. *)
Definition get_or_compile (tid : ThreadId) (opcode : Z) (binary : bool)
    (ret_type lhs_type rhs_type : DataType) (trace : string) (p : Program)
    : nat * Program :=
  let id := {| thread_id := tid; op := opcode; ret := ret_type;
               lhs := lhs_type; rhs := rhs_type; tb := trace;
               is_binary := binary |} in
  match jit_evaluator_cache_find id (jit_evaluator_cache p) with
  | Some (i, _) => (i, p)
  | None =>
      let ker := {| kernel_body := evaluator_body opcode binary ret_type lhs_type rhs_type;
                    kernel_name := "jit_evaluator_" +:+ pretty (jit_evaluator_id p);
                    kernel_autodiff_mode := kNone |} in
      (length (jit_evaluator_cache p),
       set_jit_evaluator_cache (jit_evaluator_cache p ++ [(id, ker)])
         ((jit_evaluator_id p + 1) mod 2 ^ 32) p)
  end.

(** ** Sequences of calls *)

(** The state-changing calls a client can make on a program: the member
    functions above, and assignment through a configuration reference. *)
Inductive call : Type :=
| CallThisThreadConfig (tid : ThreadId)
| CallConfig
| CallWriteConfig (r : ThreadId) (f : CompileConfig -> CompileConfig)
| CallKernel (body : KernelBody) (name : string) (autodiff_mode : AutodiffMode)
| CallGetNextGlobalId (name : string)
| CallAllocateSNodeTreeId
| CallAddSNodeTree (root : SNode) (compile_only : bool)
| CallDestroySNodeTree (snode_tree : SNodeTree)
| CallCreateFunction (func_key : FunctionKey)
| CallGetOrCompile (tid : ThreadId) (opcode : Z) (binary : bool)
    (ret_type lhs_type rhs_type : DataType) (trace : string).

(** The program after one call, its return value dropped. *)
Definition run_call (c : call) (p : Program) : Program :=
  match c with
  | CallThisThreadConfig tid => snd (this_thread_config tid p)
  | CallConfig => snd (config p)
  | CallWriteConfig r f => write_config r f p
  | CallKernel body name mode => snd (kernel body name mode p)
  | CallGetNextGlobalId name => snd (get_next_global_id name p)
  | CallAllocateSNodeTreeId => snd (allocate_snode_tree_id p)
  | CallAddSNodeTree root compile_only => snd (add_snode_tree root compile_only p)
  | CallDestroySNodeTree t => destroy_snode_tree t p
  | CallCreateFunction k => snd (create_function k p)
  | CallGetOrCompile tid o b r l rh t => snd (get_or_compile tid o b r l rh t p)
  end.

(** The program after a sequence of calls, first to last. *)
Definition run_calls (cs : list call) (p : Program) : Program :=
  foldl (fun q c => run_call c q) p cs.

End Model.

(** ** Further member functions of the header *)

(** What [get_program_impl] needs besides [Externals]: the [arch] field of
    a [CompileConfig], the predicate [arch_uses_llvm] of the architecture
    header, and the type of the object [program_impl_] owns. *)
Class BackendExternals `{Externals} := {
  Arch : Type;
  CompileConfig_arch : CompileConfig -> Arch;
  arch_uses_llvm : Arch -> bool;
  ProgramImpl : Type;
}.

Section FurtherModel.
Context `{BackendExternals}.

(** The calls whose bodies the header gives: [this_thread_config],
    [config], [kernel], [get_next_global_id], and assignment through a
    configuration reference. *)
Definition header_call (c : call) : bool :=
  match c with
  | CallThisThreadConfig _ | CallConfig | CallWriteConfig _ _
  | CallKernel _ _ _ | CallGetNextGlobalId _ => true
  | _ => false
  end.

(** The call assigns through the configuration reference [t]. *)
Definition writes_config (t : ThreadId) (c : call) : bool :=
  match c with
  | CallWriteConfig r _ => bool_decide (r = t)
  | _ => false
  end.

(** The kernels that the [kernel] calls of a sequence construct, in the
    order of the calls. *)
Definition kernels_of_calls (cs : list call) : list Kernel :=
  flat_map (fun c =>
    match c with
    | CallKernel body name mode =>
        [{| kernel_body := body; kernel_name := name;
            kernel_autodiff_mode := mode |}]
    | _ => []
    end) cs.

(** [get_next_global_id] for each name of a list, first to last: the
    identifiers made, in order, and the program left behind. *)
Fixpoint get_next_global_ids (names : list string) (p : Program)
    : list Identifier * Program :=
  match names with
  | [] => ([], p)
  | name :: names' =>
      let '(i, p1) := get_next_global_id name p in
      let '(ids, p2) := get_next_global_ids names' p1 in
      (i :: ids, p2)
  end.

(** [Program::get_program_impl], called by thread [tid]:
    [TI_ASSERT(arch_uses_llvm(this_thread_config().arch))], then
    [program_impl_.get()].  No modelled function assigns [program_impl_], so
    the pointer it holds is passed in.  The call of [this_thread_config]
    takes effect whether the assertion holds or not. *)
Definition get_program_impl (program_impl_ : ProgramImpl) (tid : ThreadId)
    (p : Program) : outcome ProgramImpl * Program :=
  let '(r, p1) := this_thread_config tid p in
  match read_config r p1 with
  | Some c =>
      if arch_uses_llvm (CompileConfig_arch c)
      then (Returned program_impl_, p1)
      else (AssertionFailed, p1)
  | None => (AssertionFailed, p1)
  end.

(** The fields of an id are small: the operator code and the hashes of the
    result and left operand types fit 8 bits, the hash of the right operand
    type 7 bits, and the hash of the thread id 32 bits. *)
Definition small_fields (id : JITEvaluatorId) : Prop :=
  0 <= op id < 2 ^ 8 /\
  0 <= DataType_hash (ret id) < 2 ^ 8 /\
  0 <= DataType_hash (lhs id) < 2 ^ 8 /\
  0 <= DataType_hash (rhs id) < 2 ^ 7 /\
  0 <= thread_hash (thread_id id) < 2 ^ 32.

End FurtherModel.

(** ** A concrete instance

    Threads, data types and the other external types as small concrete
    types, to run the model on examples: a configuration is a pair of an
    architecture number and a debug flag. *)
Definition demo_externals : Externals :=
  {| ThreadId := nat; thread_hash := Z.of_nat;
     DataType := nat; DataType_hash := Z.of_nat;
     CompileConfig := Z * bool; CompileConfig_default := (0, false);
     FunctionKey := string;
     SNode := string;
     KernelBody := string; AutodiffMode := nat; kNone := O;
     evaluator_body := fun _ _ _ _ _ => "evaluator" |}.

(** A new program of main thread 0, and the same program with three
    trees. *)
Definition demo_program : @Program demo_externals :=
  @Program_new demo_externals 0%nat (5, false).

Definition demo_forest : @Program demo_externals :=
  (@add_snode_trees demo_externals ["x"; "y"; "z"] demo_program).2.

Definition demo_id (tid : nat) (trace : string) : @JITEvaluatorId demo_externals :=
  @Build_JITEvaluatorId demo_externals tid 3 1%nat 1%nat 2%nat trace true.

(** The architecture of a demo configuration is its number; the
    architectures below 3 are the LLVM ones. *)
Definition demo_backend : @BackendExternals demo_externals :=
  @Build_BackendExternals demo_externals Z fst (fun a => bool_decide (a < 3)) string.

(** ** Proof automation

    Unfold the member functions and split on every branch they take. *)
Ltac unfold_calls :=
  unfold this_thread_config, config, write_config, kernel, get_next_global_id,
    add_snode_tree, allocate_snode_tree_id, destroy_snode_tree,
    create_function, get_or_compile, configs_index in *.

Ltac crush_call :=
  unfold_calls; repeat (case_match; simplify_eq/=); simpl.

(** * Properties *)

Section Properties.
Context `{Externals}.

(** ** Equality and hash of [JITEvaluatorId] *)

Lemma JITEvaluatorId_eqb_true (a o : JITEvaluatorId) :
  JITEvaluatorId_eqb a o = true <->
  thread_id a = thread_id o /\ op a = op o /\ ret a = ret o /\
  lhs a = lhs o /\ rhs a = rhs o /\ is_binary a = is_binary o /\ tb a = tb o.
Proof.
  unfold JITEvaluatorId_eqb.
  rewrite !andb_true_iff, !bool_decide_eq_true. tauto.
Qed.

Lemma JITEvaluatorId_eqb_eq (a o : JITEvaluatorId) :
  JITEvaluatorId_eqb a o = true <-> a = o.
Proof.
  rewrite JITEvaluatorId_eqb_true. split.
  - destruct a, o; simpl. intros (-> & -> & -> & -> & -> & -> & ->). reflexivity.
  - intros ->. tauto.
Qed.

Lemma JITEvaluatorId_eqb_refl (a : JITEvaluatorId) : JITEvaluatorId_eqb a a = true.
Proof. apply JITEvaluatorId_eqb_eq. reflexivity. Qed.

(** C4: [operator==] returns true exactly when all seven fields agree,
    that is, exactly when the two ids are the same id; and ids whose thread
    identities differ are unequal whatever the other fields are, in
    particular when all of them agree. *)
Theorem JITEvaluatorId_eqb_every_field (a o : JITEvaluatorId) :
  (JITEvaluatorId_eqb a o = true <->
   thread_id a = thread_id o /\ op a = op o /\ ret a = ret o /\
   lhs a = lhs o /\ rhs a = rhs o /\ is_binary a = is_binary o /\ tb a = tb o) /\
  (JITEvaluatorId_eqb a o = true <-> a = o) /\
  (thread_id a <> thread_id o -> JITEvaluatorId_eqb a o = false).
Proof.
  split; [apply JITEvaluatorId_eqb_true |].
  split; [apply JITEvaluatorId_eqb_eq |].
  intros Hne. apply not_true_is_false. rewrite JITEvaluatorId_eqb_true.
  intros [Heq _]. contradiction.
Qed.

(** The two casts of the operator code are guarded by opposite
    assertions: exactly one of them returns. *)
Lemma unary_op_binary_op_exclusive (id : JITEvaluatorId) :
  (is_binary id = false /\ unary_op id = Returned (op id) /\
   binary_op id = AssertionFailed) \/
  (is_binary id = true /\ unary_op id = AssertionFailed /\
   binary_op id = Returned (op id)).
Proof. unfold unary_op, binary_op. destruct (is_binary id); auto. Qed.

(** The hash is a function of the six fields other than [tb]. *)
Lemma hash_JITEvaluatorId_fields (a b : JITEvaluatorId) :
  thread_id a = thread_id b -> op a = op b -> ret a = ret b ->
  lhs a = lhs b -> rhs a = rhs b -> is_binary a = is_binary b ->
  hash_JITEvaluatorId a = hash_JITEvaluatorId b.
Proof.
  intros Ht Ho Hr Hl Hrh Hb. unfold hash_JITEvaluatorId.
  rewrite Ht, Ho, Hr, Hl, Hrh, Hb. reflexivity.
Qed.

(** C10: the hash is determined by [op], [ret], [lhs], [rhs], [is_binary]
    and [thread_id]; ids equal under [operator==] have equal hashes; and
    ids that differ only in [tb] have the same hash. *)
Theorem hash_JITEvaluatorId_ignores_tb (a b : JITEvaluatorId) :
  (thread_id a = thread_id b /\ op a = op b /\ ret a = ret b /\
   lhs a = lhs b /\ rhs a = rhs b /\ is_binary a = is_binary b ->
   hash_JITEvaluatorId a = hash_JITEvaluatorId b) /\
  (JITEvaluatorId_eqb a b = true ->
   hash_JITEvaluatorId a = hash_JITEvaluatorId b) /\
  (forall s : string,
     hash_JITEvaluatorId
       {| thread_id := thread_id a; op := op a; ret := ret a; lhs := lhs a;
          rhs := rhs a; tb := s; is_binary := is_binary a |}
     = hash_JITEvaluatorId a).
Proof.
  split; [| split].
  - intros (? & ? & ? & ? & ? & ?). by apply hash_JITEvaluatorId_fields.
  - rewrite JITEvaluatorId_eqb_true.
    intros (? & ? & ? & ? & ? & ? & _). by apply hash_JITEvaluatorId_fields.
  - intros s. by apply hash_JITEvaluatorId_fields.
Qed.

(** ** The kernel id counter *)

Lemma wrap_int_small (z : Z) : - 2 ^ 31 <= z < 2 ^ 31 -> wrap_int z = z.
Proof. intros Hz. unfold wrap_int. rewrite Z.mod_small; lia. Qed.

Lemma get_kernel_id_below (id : Z) :
  0 <= id < 100000 -> get_kernel_id id = Returned (id, id + 1).
Proof.
  intros Hid. unfold get_kernel_id.
  rewrite bool_decide_eq_true_2 by lia.
  rewrite wrap_int_small by lia. reflexivity.
Qed.

Lemma get_kernel_id_calls_from (n : nat) (id : Z) :
  0 <= id -> id + Z.of_nat n <= 100000 ->
  get_kernel_id_calls n id
  = Returned ((fun i => id + Z.of_nat i) <$> seq 0 n, id + Z.of_nat n).
Proof.
  revert id. induction n as [|n IH]; intros id Hlo Hhi.
  - simpl. f_equal. f_equal. lia.
  - cbn [get_kernel_id_calls]. rewrite get_kernel_id_below by lia.
    rewrite IH by lia. cbn [seq fmap list_fmap]. f_equal. f_equal.
    + f_equal; [lia |]. rewrite <- seq_shift, <- list_fmap_compose.
      apply list_fmap_ext. intros _ i _. simpl. lia.
    + lia.
Qed.

(** C9: started at 0, the counter hands out consecutive ids: after [n]
    calls, with [n] below 100000, the ids issued are 0, ..., n-1, no
    assertion has failed, and the next call passes the assertion and
    returns [n]. *)
Theorem get_kernel_id_consecutive (n : nat) :
  Z.of_nat n < 100000 ->
  get_kernel_id_calls n 0 = Returned (Z.of_nat <$> seq 0 n, Z.of_nat n) /\
  get_kernel_id (Z.of_nat n) = Returned (Z.of_nat n, Z.of_nat n + 1) /\
  (forall id, get_kernel_id id = AssertionFailed <-> 100000 <= id).
Proof.
  intros Hn. split; [| split].
  - rewrite get_kernel_id_calls_from by lia. reflexivity.
  - apply get_kernel_id_below. lia.
  - intros id. unfold get_kernel_id. case_bool_decide; split; try done; lia.
Qed.

(** ** What every call preserves *)

(** No call removes, replaces or reorders an owned kernel. *)
Lemma run_call_kernels_prefix (c : call) (p : Program) :
  kernels p `prefix_of` kernels (run_call c p).
Proof.
  destruct c; simpl; crush_call; try reflexivity.
  by apply prefix_app_r.
Qed.

Lemma run_calls_kernels_prefix (cs : list call) (p : Program) :
  kernels p `prefix_of` kernels (run_calls cs p).
Proof.
  revert p. induction cs as [|c cs IH]; intros p; simpl; [reflexivity |].
  etrans; [apply (run_call_kernels_prefix c) | apply IH].
Qed.

(** No call erases an entry of the configuration table. *)
Lemma run_call_configs_is_Some (c : call) (p : Program) (t : ThreadId) :
  is_Some (configs p !! t) -> is_Some (configs (run_call c p) !! t).
Proof.
  intros Ht. destruct c; simpl; crush_call; try done.
  all: rewrite ?lookup_insert_is_Some', ?lookup_alter_is_Some; auto.
Qed.

Lemma run_calls_configs_is_Some (cs : list call) (p : Program) (t : ThreadId) :
  is_Some (configs p !! t) -> is_Some (configs (run_calls cs p) !! t).
Proof.
  revert p. induction cs as [|c cs IH]; intros p Ht; simpl; [done |].
  apply IH. by apply run_call_configs_is_Some.
Qed.

(** ** The per-thread configuration table *)

Lemma this_thread_config_present (tid : ThreadId) (p : Program) :
  is_Some (configs p !! tid) -> this_thread_config tid p = (tid, p).
Proof. intros [c Hc]. unfold this_thread_config. by rewrite Hc. Qed.

Lemma this_thread_config_is_Some (tid : ThreadId) (p : Program) :
  is_Some (configs (this_thread_config tid p).2 !! tid).
Proof.
  unfold this_thread_config. destruct (configs p !! tid) eqn:Ht; simpl.
  - by rewrite Ht.
  - crush_call; by rewrite lookup_insert_eq.
Qed.

(** In a program reached from a new one, a thread other than the main
    thread that has not called [this_thread_config] has no entry. *)
Lemma run_call_configs_None (c : call) (p : Program) (tid : ThreadId) :
  c <> CallThisThreadConfig tid -> tid <> main_thread_id_ p ->
  configs p !! tid = None ->
  main_thread_id_ (run_call c p) = main_thread_id_ p /\
  configs (run_call c p) !! tid = None.
Proof.
  intros Hc Hmain Ht. destruct c; simpl; crush_call; split; try done.
  all: rewrite ?lookup_insert_ne, ?lookup_alter_None by congruence; done.
Qed.

Lemma first_call_no_entry (main tid : ThreadId) (cfg : CompileConfig) (cs : list call) :
  tid <> main -> Forall (fun c => c <> CallThisThreadConfig tid) cs ->
  configs (run_calls cs (Program_new main cfg)) !! tid = None.
Proof.
  intros Hmain Hcs.
  assert (Hgen : forall p, tid <> main_thread_id_ p -> configs p !! tid = None ->
                           configs (run_calls cs p) !! tid = None).
  { induction Hcs as [|c cs Hc _ IH]; intros p Hm Ht; simpl; [done |].
    destruct (run_call_configs_None c p tid Hc Hm Ht) as [Hm' Ht'].
    apply IH; [by rewrite Hm' | done]. }
  apply Hgen; simpl; [done |]. by rewrite lookup_singleton_ne.
Qed.

(** The table after the call of a thread that had no entry: the main
    thread's configuration, default-constructed if it was missing, is both
    under the main thread's id and, as a copy, under the caller's. *)
Lemma this_thread_config_absent (tid : ThreadId) (p : Program) :
  configs p !! tid = None ->
  let main_cfg := default CompileConfig_default (configs p !! main_thread_id_ p) in
  this_thread_config tid p
  = (tid, set_configs (<[tid := main_cfg]> (<[main_thread_id_ p := main_cfg]> (configs p))) p).
Proof.
  intros Ht. cbv zeta. unfold this_thread_config, configs_index. rewrite Ht.
  destruct (configs p !! main_thread_id_ p) as [c|] eqn:Hm; simpl.
  - rewrite Ht. by rewrite insert_insert_eq, (insert_id _ _ _ Hm).
  - destruct (decide (main_thread_id_ p = tid)) as [Heq|Hne].
    + rewrite Heq, lookup_insert_eq. reflexivity.
    + rewrite lookup_insert_ne, Ht by done. by rewrite insert_insert_eq.
Qed.

(** On any program, a call from a thread that has no entry inserts a copy
    of the main thread's configuration under the thread's id and returns
    the reference to that entry, through which the entry can be written,
    leaving the entries of the other threads as they were; every later
    call from the thread, whatever calls were made in between, returns the
    same reference and changes nothing, so the entry is not copied again. *)
Theorem this_thread_config_lazy_copy (tid : ThreadId) (p : Program) (cs : list call) :
  configs p !! tid = None ->
  let main_cfg := default CompileConfig_default (configs p !! main_thread_id_ p) in
  let r := (this_thread_config tid p).1 in
  let p1 := (this_thread_config tid p).2 in
  let p2 := run_calls cs p1 in
  r = tid /\
  read_config r p1 = Some main_cfg /\
  read_config (main_thread_id_ p1) p1 = Some main_cfg /\
  (forall f, read_config r (write_config r f p1) = Some (f main_cfg)) /\
  (forall t, t <> tid -> t <> main_thread_id_ p -> configs p1 !! t = configs p !! t) /\
  this_thread_config tid p2 = (r, p2).
Proof.
  intros Ht. cbv zeta.
  pose proof (this_thread_config_is_Some tid p) as Hsome.
  rewrite (this_thread_config_absent _ _ Ht) in *. unfold read_config. simpl in *.
  split; [reflexivity |]. split; [apply lookup_insert_eq |].
  split; [| split; [| split]].
  2: { intros f. by rewrite lookup_alter_eq, lookup_insert_eq. }
  - destruct (decide (tid = main_thread_id_ p)) as [<-|Hne].
    + apply lookup_insert_eq.
    + rewrite lookup_insert_ne by done. apply lookup_insert_eq.
  - intros t Ht1 Ht2. by rewrite !lookup_insert_ne.
  - by apply this_thread_config_present, run_calls_configs_is_Some.
Qed.

(** No call changes [main_thread_id_]. *)
Lemma run_call_main_thread_id_ (c : call) (p : Program) :
  main_thread_id_ (run_call c p) = main_thread_id_ p.
Proof. destruct c; simpl; crush_call; done. Qed.

Lemma run_calls_main_thread_id_ (cs : list call) (p : Program) :
  main_thread_id_ (run_calls cs p) = main_thread_id_ p.
Proof.
  revert p. induction cs as [|c cs IH]; intros p; simpl; [done |].
  by rewrite IH, run_call_main_thread_id_.
Qed.

(** The main thread has its entry from construction on. *)
Lemma main_thread_has_entry (main : ThreadId) (cfg : CompileConfig) (cs : list call) :
  is_Some (configs (run_calls cs (Program_new main cfg)) !! main).
Proof.
  apply run_calls_configs_is_Some. simpl. rewrite lookup_singleton_eq. eauto.
Qed.

(** C7, as amended: in a program reached from a new one, the first call
    of [this_thread_config] from a thread other than the main thread finds
    no entry for the thread, inserts a copy of the main thread's
    configuration under the thread's id and returns the reference to that
    entry, through which the entry can be written, leaving every other
    entry, the main thread's included, as it was; every later call from the
    thread, whatever calls were made in between, returns the same reference
    and changes nothing, so the entry is not copied again.  The main
    thread has its entry from construction: each of its calls, the first
    included, returns the reference to that entry and inserts nothing. *)
Theorem this_thread_config_first_call (main tid : ThreadId) (cfg : CompileConfig)
    (cs0 cs : list call) :
  tid <> main ->
  Forall (fun c => c <> CallThisThreadConfig tid) cs0 ->
  let p := run_calls cs0 (Program_new main cfg) in
  let r := (this_thread_config tid p).1 in
  let p1 := (this_thread_config tid p).2 in
  let p2 := run_calls cs p1 in
  configs p !! tid = None /\
  is_Some (read_config main p) /\
  r = tid /\
  read_config r p1 = read_config main p /\
  (forall f, read_config r (write_config r f p1) = f <$> read_config main p) /\
  (forall t, t <> tid -> configs p1 !! t = configs p !! t) /\
  this_thread_config tid p2 = (r, p2) /\
  this_thread_config main p = (main, p) /\
  this_thread_config main p2 = (main, p2).
Proof.
  intros Hne Hcs0. cbv zeta.
  set (p := run_calls cs0 (Program_new main cfg)).
  assert (Hnone : configs p !! tid = None) by by apply first_call_no_entry.
  assert (Hmain : main_thread_id_ p = main) by apply run_calls_main_thread_id_.
  destruct (main_thread_has_entry main cfg cs0) as [c Hc]. fold p in Hc.
  destruct (this_thread_config_lazy_copy tid p cs Hnone)
    as (Hr & Hcopy & _ & Hwrite & _ & Hlater).
  rewrite Hmain, Hc in Hcopy, Hwrite. simpl in Hcopy, Hwrite.
  unfold read_config at 1 3 5. rewrite Hc.
  split; [done |]. split; [eauto |]. split; [done |]. split; [done |].
  split; [done |]. split; [| split; [done | split]].
  - intros t Ht. rewrite (this_thread_config_absent tid p Hnone). simpl.
    rewrite lookup_insert_ne by done. rewrite Hmain, Hc. simpl.
    by rewrite (insert_id _ _ _ Hc).
  - apply this_thread_config_present. eauto.
  - apply this_thread_config_present.
    apply run_calls_configs_is_Some, (run_call_configs_is_Some (CallThisThreadConfig tid)).
    eauto.
Qed.

(** C3, as amended: once two distinct threads have their configurations,
    a write through the first thread's reference leaves the second thread's
    configuration as it was, and leaves the main thread's configuration as
    it was when the writing thread is not the main thread. *)
Theorem write_config_isolation (T1 T2 : ThreadId)
    (f : CompileConfig -> CompileConfig) (p : Program) :
  T1 <> T2 ->
  let r1 := (this_thread_config T1 p).1 in
  let p1 := (this_thread_config T1 p).2 in
  let r2 := (this_thread_config T2 p1).1 in
  let p2 := (this_thread_config T2 p1).2 in
  let p3 := write_config r1 f p2 in
  is_Some (read_config r1 p2) /\ is_Some (read_config r2 p2) /\
  read_config r2 p3 = read_config r2 p2 /\
  (T1 <> main_thread_id_ p ->
   read_config (config p3).1 p3 = read_config (config p2).1 p2).
Proof.
  intros Hne. cbv zeta.
  assert (Hr1 : (this_thread_config T1 p).1 = T1)
    by (unfold this_thread_config; crush_call; done).
  assert (Hr2 : (this_thread_config T2 (this_thread_config T1 p).2).1 = T2)
    by (unfold this_thread_config at 1; crush_call; done).
  assert (Hmain : forall t q, main_thread_id_ (this_thread_config t q).2 = main_thread_id_ q)
    by (intros t q; crush_call; done).
  assert (Hcfg : forall q, (config q).1 = main_thread_id_ q)
    by (intros q; crush_call; done).
  rewrite Hr1, Hr2, !Hcfg. unfold read_config.
  repeat split.
  - apply (run_call_configs_is_Some (CallThisThreadConfig T2)),
      this_thread_config_is_Some.
  - apply this_thread_config_is_Some.
  - simpl. by rewrite lookup_alter_ne.
  - intros Hm. simpl. rewrite !Hmain. by rewrite lookup_alter_ne.
Qed.

(** ** The kernel registry *)

(** C8: [kernel] appends exactly one kernel, built from its arguments, at
    the end of [kernels] and returns the reference to it; the kernels owned
    before are at their indices afterwards; and across any sequence of
    calls the list held before is a prefix of the list held after, so no
    call removes, replaces or moves a registered kernel. *)
Theorem kernel_appends (body : KernelBody) (name : string)
    (autodiff_mode : AutodiffMode) (p : Program) (cs : list call) :
  let r := (kernel body name autodiff_mode p).1 in
  let p1 := (kernel body name autodiff_mode p).2 in
  r.2 = {| kernel_body := body; kernel_name := name;
           kernel_autodiff_mode := autodiff_mode |} /\
  kernels p1 = kernels p ++ [r.2] /\
  length (kernels p1) = S (length (kernels p)) /\
  kernels p1 !! r.1 = Some r.2 /\
  last (kernels p1) = Some r.2 /\
  (forall j k, kernels p !! j = Some k -> kernels p1 !! j = Some k) /\
  kernels p `prefix_of` kernels (run_calls cs p) /\
  (forall j k, kernels p !! j = Some k -> kernels (run_calls cs p) !! j = Some k).
Proof.
  cbv zeta. unfold kernel. simpl. repeat split.
  - rewrite length_app. simpl. lia.
  - by rewrite lookup_app_r, Nat.sub_diag.
  - by rewrite last_snoc.
  - intros j k Hj. by apply lookup_app_l_Some.
  - apply run_calls_kernels_prefix.
  - intros j k Hj. by eapply prefix_lookup_Some, run_calls_kernels_prefix.
Qed.

(** ** The SNode tree registry *)

Lemma snode_tree_slot_set_eq (i : Z) (v : option SNodeTree)
    (ts : list (option SNodeTree)) :
  0 <= i < Z.of_nat (length ts) ->
  snode_tree_slot i (set_snode_tree_slot i v ts) = v.
Proof.
  intros Hi. unfold snode_tree_slot, set_snode_tree_slot.
  rewrite !bool_decide_eq_true_2 by lia.
  rewrite list_lookup_insert_eq by lia. reflexivity.
Qed.

Lemma snode_tree_slot_set_ne (i j : Z) (v : option SNodeTree)
    (ts : list (option SNodeTree)) :
  i <> j -> snode_tree_slot j (set_snode_tree_slot i v ts) = snode_tree_slot j ts.
Proof.
  intros Hne. unfold snode_tree_slot, set_snode_tree_slot.
  repeat case_bool_decide; try done.
  rewrite list_lookup_insert_ne by lia. reflexivity.
Qed.

Lemma snode_tree_slot_Some_range (i : Z) (t : SNodeTree)
    (ts : list (option SNodeTree)) :
  snode_tree_slot i ts = Some t -> 0 <= i < Z.of_nat (length ts).
Proof.
  unfold snode_tree_slot. case_bool_decide; [|done].
  destruct (ts !! Z.to_nat i) eqn:Hl; [|done].
  apply lookup_lt_Some in Hl. lia.
Qed.

Lemma snode_tree_slot_snoc (i : Z) (ts : list (option SNodeTree)) :
  snode_tree_slot i (ts ++ [None]) = snode_tree_slot i ts.
Proof.
  unfold snode_tree_slot. case_bool_decide; [|done].
  destruct (decide (Z.to_nat i < length ts)%nat) as [Hlt|Hge].
  - by rewrite lookup_app_l.
  - rewrite lookup_app_r by lia. rewrite (lookup_ge_None_2 ts) by lia.
    by destruct (Z.to_nat i - length ts)%nat as [|[|?]].
Qed.

Lemma get_snode_root_fails_iff (i : Z) (p : Program) :
  get_snode_root i p = AssertionFailed <-> snode_tree_slot i (snode_trees_ p) = None.
Proof.
  unfold get_snode_root. destruct (snode_tree_slot i (snode_trees_ p)); split; done.
Qed.

(** With an empty free stack, adding trees grows the tree list by one live
    slot per root, with consecutive ids from the size of the list on. *)
Lemma add_snode_trees_fresh (roots : list SNode) (p : Program) :
  free_snode_tree_ids_ p = [] ->
  let n := length (snode_trees_ p) in
  let r := add_snode_trees roots p in
  tree_id <$> r.1 = (fun i => Z.of_nat (n + i)) <$> seq 0 (length roots) /\
  tree_root <$> r.1 = roots /\
  free_snode_tree_ids_ r.2 = [] /\
  snode_trees_ r.2 = snode_trees_ p ++ (Some <$> r.1).
Proof.
  revert p. induction roots as [|root roots IH]; intros p Hfree; cbv zeta.
  - simpl. by rewrite app_nil_r.
  - cbn [add_snode_trees]. unfold add_snode_tree, allocate_snode_tree_id.
    rewrite Hfree. cbn [fst snd set_snode_trees_ snode_trees_].
    set (t := {| tree_id := Z.of_nat (length (snode_trees_ p)); tree_root := root |}).
    set (p1 := set_snode_trees_ _ _).
    assert (Hts : snode_trees_ p1 = snode_trees_ p ++ [Some t]).
    { subst p1. simpl. unfold set_snode_tree_slot.
      rewrite bool_decide_eq_true_2 by lia. rewrite Nat2Z.id.
      rewrite <- (Nat.add_0_r (length (snode_trees_ p))) at 1.
      by rewrite insert_app_r. }
    specialize (IH p1 Hfree). cbv zeta in IH.
    destruct (add_snode_trees roots p1) as [ts p2]. cbn [fst snd] in *.
    destruct IH as (Hids & Hroots & Hfree2 & Htrees).
    rewrite Hts, length_app in Hids. cbn [length] in Hids.
    rewrite !fmap_cons. cbn [length seq]. rewrite fmap_cons.
    repeat split.
    + rewrite Hids. f_equal; [subst t; simpl; f_equal; lia |].
      rewrite <- seq_shift, <- list_fmap_compose.
      apply list_fmap_ext. intros _ i _. simpl. f_equal. lia.
    + by rewrite Hroots.
    + done.
    + rewrite Htrees, Hts, <- app_assoc. reflexivity.
Qed.

(** C1: [allocate_snode_tree_id] pops the top of a non-empty free-id stack
    and returns it, and returns the size of the tree list when the stack is
    empty; ids are reused most recently freed first; after N trees were
    added to a new program the next id is N, and after one of them, with id
    k, is destroyed the next id is k, which is not N. *)
Theorem allocate_snode_tree_id_lifo (p : Program) (t1 t2 : SNodeTree) :
  (forall id rest, free_snode_tree_ids_ p = id :: rest ->
     allocate_snode_tree_id p = (id, set_free_snode_tree_ids_ rest p)) /\
  (free_snode_tree_ids_ p = [] ->
     (allocate_snode_tree_id p).1 = Z.of_nat (length (snode_trees_ p))) /\
  (allocate_snode_tree_id (destroy_snode_tree t1 p)).1 = tree_id t1 /\
  (let q := destroy_snode_tree t2 (destroy_snode_tree t1 p) in
   (allocate_snode_tree_id q).1 = tree_id t2 /\
   (allocate_snode_tree_id (allocate_snode_tree_id q).2).1 = tree_id t1) /\
  (forall main cfg (roots : list SNode),
     let r := add_snode_trees roots (Program_new main cfg) in
     let N := Z.of_nat (length roots) in
     tree_id <$> r.1 = Z.of_nat <$> seq 0 (length roots) /\
     (allocate_snode_tree_id r.2).1 = N /\
     (forall t, t ∈ r.1 ->
        live_snode_tree r.2 t /\
        (allocate_snode_tree_id (destroy_snode_tree t r.2)).1 = tree_id t /\
        tree_id t <> N)).
Proof.
  split; [| split; [| split; [| split]]].
  - intros id rest Hf. unfold allocate_snode_tree_id. by rewrite Hf.
  - intros Hf. unfold allocate_snode_tree_id. by rewrite Hf.
  - reflexivity.
  - split; reflexivity.
  - intros main cfg roots. cbv zeta.
    destruct (add_snode_trees_fresh roots (Program_new main cfg) eq_refl)
      as (Hids & Hroots & Hfree & Htrees).
    simpl in Hids, Htrees.
    assert (Hlen : length (add_snode_trees roots (Program_new main cfg)).1 = length roots).
    { by rewrite <- (length_fmap tree_id), Hids, length_fmap, length_seq. }
    split; [exact Hids |]. split.
    + unfold allocate_snode_tree_id. rewrite Hfree. simpl.
      by rewrite Htrees, length_fmap, Hlen.
    + intros t [i Hi]%list_elem_of_lookup.
      assert (Hid : tree_id t = Z.of_nat i).
      { assert (Hi' : (tree_id <$> (add_snode_trees roots (Program_new main cfg)).1) !! i
                      = Some (tree_id t)) by (by rewrite list_lookup_fmap, Hi).
        rewrite Hids, list_lookup_fmap in Hi'.
        destruct (seq 0 (length roots) !! i) as [j|] eqn:Hj; [|done].
        apply lookup_seq in Hj as [-> _]. simpl in Hi'. congruence. }
      pose proof (lookup_lt_Some _ _ _ Hi) as Hlt. rewrite Hlen in Hlt.
      split; [| split; [reflexivity | lia]].
      unfold live_snode_tree, snode_tree_slot.
      rewrite bool_decide_eq_true_2 by lia.
      rewrite Htrees, Hid, Nat2Z.id, list_lookup_fmap, Hi. reflexivity.
Qed.

(** Once a lookup by an id fails it keeps failing across every call other
    than an [add_snode_tree] that is handed this very id. *)
Lemma get_snode_root_fails_until_reallocated (k : Z) (c : call) (q : Program) :
  get_snode_root k q = AssertionFailed ->
  get_snode_root k (run_call c q) = AssertionFailed \/
  (exists root compile_only,
     c = CallAddSNodeTree root compile_only /\
     tree_id (add_snode_tree root compile_only q).1 = k).
Proof.
  rewrite !get_snode_root_fails_iff. intros Hk.
  destruct c; simpl;
    try (left; crush_call; by rewrite ?snode_tree_slot_snoc).
  - destruct (decide (tree_id (add_snode_tree root compile_only q).1 = k))
      as [Heq|Hne]; [right; eauto |].
    left. revert Hne. unfold add_snode_tree, allocate_snode_tree_id.
    destruct (free_snode_tree_ids_ q) as [|id rest]; simpl; intros Hne.
    + by rewrite snode_tree_slot_set_ne, snode_tree_slot_snoc.
    + by rewrite snode_tree_slot_set_ne.
  - left. unfold destroy_snode_tree. simpl.
    destruct (decide (tree_id snode_tree = k)) as [<-|Hne].
    + unfold snode_tree_slot, set_snode_tree_slot in *.
      case_bool_decide; [|done].
      destruct (decide (Z.to_nat (tree_id snode_tree) < length (snode_trees_ q))%nat).
      * by rewrite list_lookup_insert_eq.
      * by rewrite list_insert_ge by lia.
    + by rewrite snode_tree_slot_set_ne.
Qed.

(** C6: destroying a live tree with id k pushes k onto the free-id stack
    and empties its slot, so [get_snode_root k], which returned the root
    before, fails with an assertion; the failure lasts across every call
    that does not reallocate k; the next [add_snode_tree] reallocates k and
    makes the lookup return the new root; and a lookup of any index fails
    exactly when the index names no live tree. *)
Theorem destroy_snode_tree_invalidates (p : Program) (t : SNodeTree) :
  live_snode_tree p t ->
  let k := tree_id t in
  let p1 := destroy_snode_tree t p in
  get_snode_root k p = Returned (tree_root t) /\
  free_snode_tree_ids_ p1 = k :: free_snode_tree_ids_ p /\
  snode_tree_slot k (snode_trees_ p1) = None /\
  get_snode_root k p1 = AssertionFailed /\
  (forall c q, get_snode_root k q = AssertionFailed ->
     get_snode_root k (run_call c q) = AssertionFailed \/
     exists root compile_only,
       c = CallAddSNodeTree root compile_only /\
       tree_id (add_snode_tree root compile_only q).1 = k) /\
  (forall root compile_only,
     let r := add_snode_tree root compile_only p1 in
     tree_id r.1 = k /\ get_snode_root k r.2 = Returned root /\
     free_snode_tree_ids_ r.2 = free_snode_tree_ids_ p) /\
  (forall i q, get_snode_root i q = AssertionFailed <->
     ~ exists t', snode_tree_slot i (snode_trees_ q) = Some t').
Proof.
  intros Hlive. cbv zeta.
  pose proof (snode_tree_slot_Some_range _ _ _ Hlive) as Hrange.
  assert (Hdead : snode_tree_slot (tree_id t)
                    (snode_trees_ (destroy_snode_tree t p)) = None).
  { unfold destroy_snode_tree. simpl. by apply snode_tree_slot_set_eq. }
  split; [| split; [| split; [| split; [| split; [| split]]]]].
  - unfold get_snode_root. unfold live_snode_tree in Hlive. by rewrite Hlive.
  - reflexivity.
  - exact Hdead.
  - by apply get_snode_root_fails_iff.
  - intros c q. apply get_snode_root_fails_until_reallocated.
  - intros root compile_only. cbv zeta.
    unfold add_snode_tree, allocate_snode_tree_id, destroy_snode_tree. simpl.
    split; [reflexivity |]. split; [| reflexivity].
    unfold get_snode_root. simpl.
    rewrite snode_tree_slot_set_eq; [reflexivity |].
    unfold set_snode_tree_slot. rewrite bool_decide_eq_true_2 by lia.
    by rewrite length_insert.
  - intros i q. rewrite get_snode_root_fails_iff.
    destruct (snode_tree_slot i (snode_trees_ q)) as [t'|]; split.
    + done.
    + intros []. eauto.
    + intros _ [t' Ht']. done.
    + done.
Qed.

(** ** The function registry *)

Lemma create_function_registered (k : FunctionKey) (p : Program) :
  function_map_ (create_function k p).2 !! k = Some (create_function k p).1.
Proof.
  unfold create_function. destruct (function_map_ p !! k) eqn:Hk; simpl.
  - exact Hk.
  - apply lookup_insert_eq.
Qed.

Lemma create_function_present (k : FunctionKey) (f : nat) (p : Program) :
  function_map_ p !! k = Some f -> create_function k p = (f, p).
Proof. intros Hk. unfold create_function. by rewrite Hk. Qed.

(** No call unregisters a function or registers another one under a key
    already taken. *)
Lemma run_call_function_map_ (c : call) (p : Program) (k : FunctionKey) (f : nat) :
  function_map_ p !! k = Some f -> function_map_ (run_call c p) !! k = Some f.
Proof.
  intros Hk. destruct c; simpl; crush_call; try done.
  rewrite lookup_insert_ne; [done | congruence].
Qed.

Lemma run_calls_function_map_ (cs : list call) (p : Program) (k : FunctionKey) (f : nat) :
  function_map_ p !! k = Some f -> function_map_ (run_calls cs p) !! k = Some f.
Proof.
  revert p. induction cs as [|c cs IH]; intros p Hk; simpl; [done |].
  apply IH. by apply run_call_function_map_.
Qed.

Lemma Program_new_function_registry_wf (main : ThreadId) (cfg : CompileConfig) :
  function_registry_wf (Program_new main cfg).
Proof. split; simpl; intros ? ?; [by rewrite lookup_empty | done]. Qed.

Lemma create_function_registry_wf (k : FunctionKey) (p : Program) :
  function_registry_wf p -> function_registry_wf (create_function k p).2.
Proof.
  intros [Hmap Hown]. unfold create_function.
  destruct (function_map_ p !! k) as [f|] eqn:Hk; simpl; [done |].
  split; simpl.
  - intros k' f'. rewrite lookup_insert. case_decide as Hkk.
    + intros [= <-]. subst k'. by rewrite lookup_app_r, Nat.sub_diag.
    + intros Hk'. by apply lookup_app_l_Some, Hmap.
  - intros f' fn [Hold | [Hge Hnew]]%lookup_app_Some.
    + rewrite lookup_insert_ne; [by apply Hown |].
      intros ->. apply Hown in Hold. congruence.
    + apply list_lookup_singleton_Some in Hnew as [Hf' <-]. simpl.
      replace f' with (length (functions_ p)) by lia. apply lookup_insert_eq.
Qed.

Lemma run_call_function_registry_wf (c : call) (p : Program) :
  function_registry_wf p -> function_registry_wf (run_call c p).
Proof.
  intros Hwf. destruct c; simpl;
    try (by apply create_function_registry_wf); crush_call; exact Hwf.
Qed.

Lemma run_calls_function_registry_wf (cs : list call) (p : Program) :
  function_registry_wf p -> function_registry_wf (run_calls cs p).
Proof.
  revert p. induction cs as [|c cs IH]; intros p Hwf; simpl; [done |].
  apply IH. by apply run_call_function_registry_wf.
Qed.

(** C5: in a program reached from a new one by any calls, once
    [create_function k1] has been called, a later [create_function k1]
    returns the same function and constructs nothing, whatever calls were
    made in between; [create_function] with another key returns another
    function; and the owned functions and the registered keys correspond
    one to one. *)
Theorem create_function_one_per_key (main : ThreadId) (cfg : CompileConfig)
    (cs1 cs2 : list call) (k1 k2 : FunctionKey) :
  let p := run_calls cs1 (Program_new main cfg) in
  let f1 := (create_function k1 p).1 in
  let p1 := (create_function k1 p).2 in
  let p2 := run_calls cs2 p1 in
  create_function k1 p2 = (f1, p2) /\
  functions_ p2 !! f1 = Some {| func_key := k1 |} /\
  (k1 <> k2 -> (create_function k2 p2).1 <> f1) /\
  (k1 = k2 -> (create_function k2 p2).1 = f1) /\
  (forall k f, function_map_ p2 !! k = Some f ->
               functions_ p2 !! f = Some {| func_key := k |}) /\
  (forall f fn, functions_ p2 !! f = Some fn ->
                function_map_ p2 !! func_key fn = Some f).
Proof.
  cbv zeta.
  set (p := run_calls cs1 (Program_new main cfg)).
  set (p2 := run_calls cs2 (create_function k1 p).2).
  assert (Hwf : function_registry_wf p2).
  { apply run_calls_function_registry_wf, create_function_registry_wf,
      run_calls_function_registry_wf, Program_new_function_registry_wf. }
  assert (Hk1 : function_map_ p2 !! k1 = Some (create_function k1 p).1)
    by apply run_calls_function_map_, create_function_registered.
  split; [by apply create_function_present |].
  split; [by apply Hwf |].
  split; [| split; [| exact Hwf]].
  - intros Hne Heq.
    pose proof (create_function_registry_wf k2 p2 Hwf) as [Hmap3 _].
    pose proof (Hmap3 _ _ (create_function_registered k2 p2)) as H2.
    pose proof (Hmap3 _ _ (run_call_function_map_ (CallCreateFunction k2) _ _ _ Hk1)) as H1.
    simpl in H1. rewrite Heq in H2. congruence.
  - intros <-. by rewrite (create_function_present _ _ _ Hk1).
Qed.

(** ** The JIT evaluator cache *)






End Properties.

(** * Further properties of the header's functions *)

Section FurtherProperties.
Context `{BackendExternals}.

(** ** [JITEvaluatorId] as a hash-map key *)

(** X1: [operator==] is an equivalence relation on ids: reflexive,
    symmetric and transitive. *)
Theorem JITEvaluatorId_eqb_equivalence (a b c : JITEvaluatorId) :
  JITEvaluatorId_eqb a a = true /\
  JITEvaluatorId_eqb a b = JITEvaluatorId_eqb b a /\
  (JITEvaluatorId_eqb a b = true -> JITEvaluatorId_eqb b c = true ->
   JITEvaluatorId_eqb a c = true).
Proof.
  split; [apply JITEvaluatorId_eqb_refl |]. split.
  - destruct (JITEvaluatorId_eqb a b) eqn:Hab, (JITEvaluatorId_eqb b a) eqn:Hba;
      try done.
    + apply JITEvaluatorId_eqb_eq in Hab as ->.
      by rewrite JITEvaluatorId_eqb_refl in Hba.
    + apply JITEvaluatorId_eqb_eq in Hba as ->.
      by rewrite JITEvaluatorId_eqb_refl in Hab.
  - rewrite !JITEvaluatorId_eqb_eq. congruence.
Qed.

(** *** The bits of the hash *)

Lemma testbit_to_size_t (z i : Z) :
  Z.testbit (to_size_t z) i = bool_decide (i < 64) && Z.testbit z i.
Proof.
  unfold to_size_t, size_t_modulus. case_bool_decide; simpl.
  - destruct (decide (0 <= i)).
    + apply Z.mod_pow2_bits_low. lia.
    + by rewrite !Z.testbit_neg_r by lia.
  - apply Z.mod_pow2_bits_high. lia.
Qed.

Lemma testbit_shl_size_t (x n i : Z) :
  0 <= i ->
  Z.testbit (shl_size_t x n) i = bool_decide (i < 64) && Z.testbit x (i - n).
Proof.
  intros Hi. unfold shl_size_t. rewrite testbit_to_size_t.
  by rewrite Z.shiftl_spec by done.
Qed.

Lemma testbit_b2z (b : bool) (i : Z) :
  Z.testbit (Z.b2z b) i = b && bool_decide (i = 0).
Proof.
  destruct b; simpl.
  - case_bool_decide as Hi; [by subst |]. by destruct i.
  - apply Z.bits_0.
Qed.

(** Bit [i] of the hash: below bit 64, the exclusive or of the thread
    hash shifted by 32 with the union of the operator code, the three type
    hashes shifted by 8, 16 and 24, and the binary flag at bit 31. *)
Lemma testbit_hash_JITEvaluatorId (id : JITEvaluatorId) (i : Z) :
  0 <= i ->
  Z.testbit (hash_JITEvaluatorId id) i =
  bool_decide (i < 64) &&
  xorb (Z.testbit (op id) i
        || Z.testbit (DataType_hash (ret id)) (i - 8)
        || Z.testbit (DataType_hash (lhs id)) (i - 16)
        || Z.testbit (DataType_hash (rhs id)) (i - 24)
        || (is_binary id && bool_decide (i = 31)))
       (Z.testbit (thread_hash (thread_id id)) (i - 32)).
Proof.
  intros Hi. unfold hash_JITEvaluatorId.
  rewrite Z.lxor_spec, !Z.lor_spec, !testbit_shl_size_t, !testbit_to_size_t by done.
  rewrite testbit_b2z.
  replace (bool_decide (i - 31 = 0)) with (bool_decide (i = 31))
    by (apply bool_decide_ext; lia).
  repeat case_bool_decide; try lia; simpl;
    by rewrite ?andb_false_r, ?andb_true_r, ?orb_false_r.
Qed.

(** X3: the hash is a [std::size_t] value: it lies in [0, 2^64), whatever
    the operator code and the hashes of the types and of the thread are. *)
Theorem hash_JITEvaluatorId_range (id : JITEvaluatorId) :
  0 <= hash_JITEvaluatorId id < 2 ^ 64.
Proof.
  assert (Hmod : hash_JITEvaluatorId id mod 2 ^ 64 = hash_JITEvaluatorId id).
  { apply Z.bits_inj'. intros i Hi.
    destruct (decide (i < 64)).
    - by rewrite Z.mod_pow2_bits_low by lia.
    - rewrite Z.mod_pow2_bits_high by lia.
      rewrite testbit_hash_JITEvaluatorId by done.
      by rewrite bool_decide_eq_false_2 by lia. }
  rewrite <- Hmod. apply Z.mod_pos_bound. lia.
Qed.

Lemma hash_JITEvaluatorId_mod_256 (id : JITEvaluatorId) :
  hash_JITEvaluatorId id mod 2 ^ 8 = op id mod 2 ^ 8.
Proof.
  apply Z.bits_inj'. intros i Hi.
  destruct (decide (i < 8)).
  - rewrite !Z.mod_pow2_bits_low by lia.
    rewrite testbit_hash_JITEvaluatorId by done.
    rewrite !(Z.testbit_neg_r _ (i - _)) by lia.
    rewrite bool_decide_eq_true_2, (bool_decide_eq_false_2 (i = 31)) by lia.
    simpl. by rewrite andb_false_r, !orb_false_r, xorb_false_r.
  - by rewrite !Z.mod_pow2_bits_high by lia.
Qed.

(** X4: the low byte of the hash is the low byte of the operator code,
    so ids whose operator codes differ modulo 256 never collide. *)
Theorem hash_JITEvaluatorId_low_byte (a b : JITEvaluatorId) :
  hash_JITEvaluatorId a mod 2 ^ 8 = op a mod 2 ^ 8 /\
  (op a mod 2 ^ 8 <> op b mod 2 ^ 8 ->
   hash_JITEvaluatorId a <> hash_JITEvaluatorId b).
Proof.
  split; [apply hash_JITEvaluatorId_mod_256 |].
  intros Hne Heq. apply Hne. by rewrite <- !hash_JITEvaluatorId_mod_256, Heq.
Qed.

(** X5: the thread identity reaches only the upper half of the hash: ids
    that agree on [op], [ret], [lhs], [rhs] and [is_binary] agree on the
    low 32 bits of their hashes, whatever their threads are. *)
Theorem hash_JITEvaluatorId_low_word (a b : JITEvaluatorId) :
  op a = op b -> ret a = ret b -> lhs a = lhs b -> rhs a = rhs b ->
  is_binary a = is_binary b ->
  hash_JITEvaluatorId a mod 2 ^ 32 = hash_JITEvaluatorId b mod 2 ^ 32.
Proof.
  intros Ho Hr Hl Hrh Hb.
  apply Z.bits_inj'. intros i Hi.
  destruct (decide (i < 32)).
  - rewrite !Z.mod_pow2_bits_low by lia.
    rewrite !testbit_hash_JITEvaluatorId by done.
    rewrite !(Z.testbit_neg_r _ (i - 32)) by lia.
    by rewrite Ho, Hr, Hl, Hrh, Hb.
  - by rewrite !Z.mod_pow2_bits_high by lia.
Qed.

(** *** The hash of small fields *)

Lemma testbit_small (a k i : Z) :
  0 <= a < 2 ^ k -> k <= i -> Z.testbit a i = false.
Proof.
  intros Ha Hi. rewrite <- (Z.mod_small a (2 ^ k)) by done.
  apply Z.mod_pow2_bits_high.
  split; [| done]. destruct (decide (0 <= k)); [done |].
  rewrite Z.pow_neg_r in Ha by lia. lia.
Qed.

Lemma land_shiftl_small (a b k : Z) :
  0 <= a < 2 ^ k -> Z.land a (b * 2 ^ k) = 0.
Proof.
  intros Ha. assert (0 <= k).
  { destruct (decide (0 <= k)); [done |]. rewrite Z.pow_neg_r in Ha by lia. lia. }
  apply Z.bits_inj'. intros i Hi. rewrite Z.land_spec, Z.bits_0.
  destruct (decide (i < k)).
  - rewrite Z.mul_pow2_bits_low by lia. apply andb_false_r.
  - by rewrite (testbit_small a k i) by lia.
Qed.

Lemma lor_shiftl_add (a b k : Z) :
  0 <= a < 2 ^ k -> Z.lor a (b * 2 ^ k) = a + b * 2 ^ k.
Proof.
  intros Ha. pose proof (land_shiftl_small a b k Ha) as Hland.
  by rewrite <- Z.lxor_lor, <- Z.add_nocarry_lxor.
Qed.

Lemma lxor_shiftl_add (a b k : Z) :
  0 <= a < 2 ^ k -> Z.lxor a (b * 2 ^ k) = a + b * 2 ^ k.
Proof.
  intros Ha. pose proof (land_shiftl_small a b k Ha) as Hland.
  by rewrite <- Z.add_nocarry_lxor.
Qed.

Lemma shl_size_t_small (x n : Z) :
  0 <= n -> 0 <= x -> x * 2 ^ n < 2 ^ 64 -> shl_size_t x n = x * 2 ^ n.
Proof.
  intros Hn Hx Hlt. unfold shl_size_t, to_size_t, size_t_modulus.
  rewrite Z.shiftl_mul_pow2 by done. apply Z.mod_small. lia.
Qed.

Lemma hash_JITEvaluatorId_packed (a : JITEvaluatorId) :
  small_fields a ->
  hash_JITEvaluatorId a =
  op a + DataType_hash (ret a) * 2 ^ 8 + DataType_hash (lhs a) * 2 ^ 16 +
  DataType_hash (rhs a) * 2 ^ 24 + Z.b2z (is_binary a) * 2 ^ 31 +
  thread_hash (thread_id a) * 2 ^ 32.
Proof.
  intros (Ho & Hr & Hl & Hrh & Ht). unfold hash_JITEvaluatorId.
  assert (Hb : 0 <= Z.b2z (is_binary a) <= 1) by (destruct (is_binary a); simpl; lia).
  unfold to_size_t, size_t_modulus.
  rewrite (Z.mod_small (op a)), (Z.mod_small (Z.b2z _)) by lia.
  rewrite (shl_size_t_small (DataType_hash (ret a))) by lia.
  rewrite (shl_size_t_small (DataType_hash (lhs a))) by lia.
  rewrite (shl_size_t_small (DataType_hash (rhs a))) by lia.
  rewrite (shl_size_t_small (Z.b2z _)) by lia.
  rewrite (shl_size_t_small (thread_hash _)) by lia.
  rewrite (lor_shiftl_add (op a) _ 8) by lia.
  rewrite (lor_shiftl_add _ _ 16) by lia.
  rewrite (lor_shiftl_add _ _ 24) by lia.
  rewrite (lor_shiftl_add _ _ 31) by lia.
  rewrite (lxor_shiftl_add _ _ 32) by lia.
  reflexivity.
Qed.

(** X6: when the operator code and the hashes of [ret] and [lhs] fit 8
    bits, the hash of [rhs] 7 bits and the hash of the thread 32 bits, the
    fields occupy disjoint bit ranges: the hash is the sum of the fields
    scaled by 1, 2^8, 2^16, 2^24, 2^31 and 2^32, and two such ids with the
    same hash agree on the operator code, the three type hashes, the binary
    flag and the thread hash. *)
Theorem hash_JITEvaluatorId_small_injective (a b : JITEvaluatorId) :
  small_fields a -> small_fields b ->
  hash_JITEvaluatorId a =
    op a + DataType_hash (ret a) * 2 ^ 8 + DataType_hash (lhs a) * 2 ^ 16 +
    DataType_hash (rhs a) * 2 ^ 24 + Z.b2z (is_binary a) * 2 ^ 31 +
    thread_hash (thread_id a) * 2 ^ 32 /\
  (hash_JITEvaluatorId a = hash_JITEvaluatorId b ->
   op a = op b /\
   DataType_hash (ret a) = DataType_hash (ret b) /\
   DataType_hash (lhs a) = DataType_hash (lhs b) /\
   DataType_hash (rhs a) = DataType_hash (rhs b) /\
   is_binary a = is_binary b /\
   thread_hash (thread_id a) = thread_hash (thread_id b)).
Proof.
  intros Ha Hb. split; [by apply hash_JITEvaluatorId_packed |].
  rewrite (hash_JITEvaluatorId_packed a Ha), (hash_JITEvaluatorId_packed b Hb).
  destruct Ha as (? & ? & ? & ? & ?), Hb as (? & ? & ? & ? & ?).
  assert (Hba : 0 <= Z.b2z (is_binary a) <= 1) by (destruct (is_binary a); simpl; lia).
  assert (Hbb : 0 <= Z.b2z (is_binary b) <= 1) by (destruct (is_binary b); simpl; lia).
  intros Heq.
  assert (Z.b2z (is_binary a) = Z.b2z (is_binary b) /\ op a = op b /\
          DataType_hash (ret a) = DataType_hash (ret b) /\
          DataType_hash (lhs a) = DataType_hash (lhs b) /\
          DataType_hash (rhs a) = DataType_hash (rhs b) /\
          thread_hash (thread_id a) = thread_hash (thread_id b))
    as (Hbin & ? & ? & ? & ? & ?) by lia.
  repeat split; try done.
  destruct (is_binary a), (is_binary b); simpl in Hbin; done || lia.
Qed.

(** ** The configuration table *)

Lemma set_configs_id (p : Program) : set_configs (configs p) p = p.
Proof. by destruct p. Qed.

Lemma config_present (p : Program) (c : CompileConfig) :
  configs p !! main_thread_id_ p = Some c -> config p = (main_thread_id_ p, p).
Proof.
  intros Hm. unfold config, configs_index. rewrite Hm.
  by rewrite set_configs_id.
Qed.

(** X7: [config] returns the reference to the main thread's entry.  When
    the entry exists the program is unchanged; when it is missing,
    [configs[main_thread_id_]] inserts a default-constructed configuration,
    and no other entry changes.  A second call changes nothing, and
    [this_thread_config] called by the main thread does exactly what
    [config] does. *)
Theorem config_main_entry (p : Program) :
  (config p).1 = main_thread_id_ p /\
  read_config (config p).1 (config p).2
  = Some (default CompileConfig_default (configs p !! main_thread_id_ p)) /\
  (is_Some (configs p !! main_thread_id_ p) -> (config p).2 = p) /\
  (forall t, t <> main_thread_id_ p -> configs (config p).2 !! t = configs p !! t) /\
  config (config p).2 = config p /\
  this_thread_config (main_thread_id_ p) p = config p.
Proof.
  destruct (configs p !! main_thread_id_ p) as [c|] eqn:Hm.
  - rewrite (config_present p c Hm). simpl.
    rewrite this_thread_config_present by eauto.
    unfold read_config. rewrite Hm. repeat split; eauto using config_present.
  - assert (Hc : config p
                 = (main_thread_id_ p,
                    set_configs (<[main_thread_id_ p := CompileConfig_default]>
                                   (configs p)) p)).
    { unfold config, configs_index. by rewrite Hm. }
    rewrite Hc. unfold read_config. simpl.
    split; [done |]. split; [apply lookup_insert_eq |].
    split; [intros Hs; by apply is_Some_None in Hs |]. split; [| split].
    + intros t Ht. by rewrite lookup_insert_ne.
    + apply (config_present (set_configs _ p) CompileConfig_default).
      simpl. apply lookup_insert_eq.
    + rewrite (this_thread_config_absent _ _ Hm). simpl.
      by rewrite Hm, insert_insert_eq.
Qed.

Lemma this_thread_config_lookup_Some (tid t : ThreadId) (c : CompileConfig)
    (p : Program) :
  configs p !! t = Some c -> configs (this_thread_config tid p).2 !! t = Some c.
Proof.
  intros Hc. destruct (configs p !! tid) as [c0|] eqn:Ht.
  - by rewrite (this_thread_config_present tid p) by eauto.
  - rewrite (this_thread_config_absent tid p Ht). simpl.
    destruct (decide (t = tid)) as [->|Hne]; [congruence |].
    rewrite lookup_insert_ne by done.
    destruct (decide (t = main_thread_id_ p)) as [->|Hne'].
    + by rewrite lookup_insert_eq, Hc.
    + by rewrite lookup_insert_ne.
Qed.

(** X8: [this_thread_config] never overwrites a configuration: every
    entry that exists before the call, the main thread's included, holds
    the same value after it; the only keys it can add are the caller's and
    the main thread's; the caller has an entry afterwards; and calling it
    twice in a row is the same as calling it once. *)
Theorem this_thread_config_preserves_entries (tid : ThreadId) (p : Program) :
  (forall t c, configs p !! t = Some c ->
     configs (this_thread_config tid p).2 !! t = Some c) /\
  (forall t, is_Some (configs (this_thread_config tid p).2 !! t) ->
     is_Some (configs p !! t) \/ t = tid \/ t = main_thread_id_ p) /\
  is_Some (configs (this_thread_config tid p).2 !! tid) /\
  this_thread_config tid (this_thread_config tid p).2 = this_thread_config tid p.
Proof.
  split; [intros t c; apply this_thread_config_lookup_Some |].
  destruct (configs p !! tid) as [c0|] eqn:Ht.
  - rewrite (this_thread_config_present tid p) by eauto. simpl.
    rewrite (this_thread_config_present tid p) by eauto. eauto.
  - rewrite (this_thread_config_absent tid p Ht). simpl.
    split; [| split].
    + intros t. rewrite !lookup_insert_is_Some'. intros [->|[->|?]]; auto.
    + rewrite lookup_insert_eq. eauto.
    + apply this_thread_config_present. simpl. rewrite lookup_insert_eq. eauto.
Qed.

(** X9: across the calls the header defines, the configuration of a
    thread changes only by an assignment through that thread's own
    reference: after any sequence of such calls none of which writes through
    the reference [t], the entry of [t] holds the value it held before. *)
Theorem config_changed_only_by_write (t : ThreadId) (v : CompileConfig)
    (cs : list call) (p : Program) :
  Forall (fun c => header_call c = true /\ writes_config t c = false) cs ->
  configs p !! t = Some v ->
  configs (run_calls cs p) !! t = Some v.
Proof.
  intros Hcs. revert p. induction Hcs as [|c cs [Hh Hw] _ IH]; intros p Hv; simpl.
  - done.
  - apply IH. destruct c; simpl in *; try discriminate.
    + by apply this_thread_config_lookup_Some.
    + unfold config, configs_index.
      destruct (configs p !! main_thread_id_ p) eqn:Hm; simpl; [done |].
      rewrite lookup_insert_ne; [done | congruence].
    + unfold write_config. simpl. rewrite lookup_alter_ne; [done |].
      by apply bool_decide_eq_false in Hw.
    + done.
    + done.
Qed.

(** X10: the copy a thread gets is of the main configuration as it is at
    the thread's first call, not as it was at construction: if the main
    thread's configuration [c] is replaced by [f c] and a thread without an
    entry then calls [this_thread_config], its entry holds [f c]; a later
    change of the main configuration does not reach it. *)
Theorem this_thread_config_copies_current_main (T : ThreadId)
    (f : CompileConfig -> CompileConfig) (c : CompileConfig) (p : Program) :
  configs p !! main_thread_id_ p = Some c ->
  configs p !! T = None ->
  let p1 := write_config (main_thread_id_ p) f p in
  let p2 := (this_thread_config T p1).2 in
  read_config T p2 = Some (f c) /\
  read_config (main_thread_id_ p) p2 = Some (f c) /\
  (forall g, read_config T (write_config (main_thread_id_ p) g p2) = Some (f c)).
Proof.
  intros Hm HT. cbv zeta.
  assert (Hne : T <> main_thread_id_ p) by congruence.
  assert (HT1 : configs (write_config (main_thread_id_ p) f p) !! T = None).
  { unfold write_config. simpl. by rewrite lookup_alter_ne. }
  rewrite (this_thread_config_absent _ _ HT1). unfold read_config. simpl.
  rewrite lookup_alter_eq, Hm. simpl.
  split; [apply lookup_insert_eq |]. split.
  - rewrite lookup_insert_ne by done. apply lookup_insert_eq.
  - intros g. rewrite lookup_alter_ne by done. apply lookup_insert_eq.
Qed.

(** X11: no call the header defines changes [main_thread_id_] or removes
    an entry of the configuration table. *)
Theorem header_calls_keep_main_thread (cs : list call) (p : Program) :
  Forall (fun c => header_call c = true) cs ->
  main_thread_id_ (run_calls cs p) = main_thread_id_ p /\
  (forall t, is_Some (configs p !! t) -> is_Some (configs (run_calls cs p) !! t)).
Proof.
  intros Hcs. split; [| intros t; apply run_calls_configs_is_Some].
  revert p. induction Hcs as [|c cs Hh _ IH]; intros p; simpl; [done |].
  rewrite IH. destruct c; simpl in *; try discriminate; crush_call; done.
Qed.

(** ** The kernel registry and the counters *)

(** X12: after any sequence of calls the header defines, [kernels] is the
    list held before followed by the kernels that the [kernel] calls of the
    sequence constructed, in the order of the calls; the other calls add
    nothing; and the next [kernel] call returns the reference whose index
    is the number of kernels made so far. *)
Theorem kernels_of_header_calls (cs : list call) (p : Program)
    (body : KernelBody) (name : string) (mode : AutodiffMode) :
  Forall (fun c => header_call c = true) cs ->
  kernels (run_calls cs p) = kernels p ++ kernels_of_calls cs /\
  length (kernels (run_calls cs p))
  = (length (kernels p) + length (kernels_of_calls cs))%nat /\
  (kernel body name mode (run_calls cs p)).1.1
  = (length (kernels p) + length (kernels_of_calls cs))%nat.
Proof.
  intros Hcs.
  assert (Heq : kernels (run_calls cs p) = kernels p ++ kernels_of_calls cs).
  { revert p. induction Hcs as [|c cs Hh _ IH]; intros p; simpl.
    - by rewrite app_nil_r.
    - rewrite IH. destruct c; simpl in *; try discriminate; crush_call;
        rewrite <- ?app_assoc; done. }
  split; [done |]. unfold kernel. simpl. by rewrite Heq, length_app.
Qed.

Lemma get_kernel_id_calls_exhausted (n : nat) (id : Z) :
  0 <= id <= 100000 -> 100000 < id + Z.of_nat n ->
  get_kernel_id_calls n id = AssertionFailed.
Proof.
  revert id. induction n as [|n IH]; intros id Hid Hn; [lia |].
  cbn [get_kernel_id_calls].
  destruct (decide (id < 100000)).
  - rewrite get_kernel_id_below by lia. by rewrite IH by lia.
  - unfold get_kernel_id. by rewrite bool_decide_eq_false_2 by lia.
Qed.

(** X13: [get_kernel_id] issues at most 100000 ids: a run of more than
    100000 calls from the initial counter ends in the assertion failure,
    and whenever a run of [n] calls returns, [n] is at most 100000, the
    counter is [n], and the ids returned are pairwise distinct and lie in
    [0, 100000). *)
Theorem get_kernel_id_at_most_100000 (n : nat) :
  (100000 < Z.of_nat n -> get_kernel_id_calls n 0 = AssertionFailed) /\
  (forall ids c, get_kernel_id_calls n 0 = Returned (ids, c) ->
     Z.of_nat n <= 100000 /\ c = Z.of_nat n /\ length ids = n /\
     NoDup ids /\ Forall (fun i => 0 <= i < 100000) ids).
Proof.
  split; [intros Hn; apply get_kernel_id_calls_exhausted; lia |].
  intros ids c Hcalls.
  destruct (decide (Z.of_nat n <= 100000)) as [Hle|Hgt].
  - rewrite get_kernel_id_calls_from in Hcalls by lia.
    injection Hcalls as <- <-.
    split; [done |]. split; [lia |].
    split; [by rewrite length_fmap, length_seq |]. split.
    + apply NoDup_fmap_2; [| apply NoDup_seq]. intros i j. lia.
    + apply Forall_fmap, Forall_seq. intros j Hj. simpl. lia.
  - rewrite get_kernel_id_calls_exhausted in Hcalls by lia. done.
Qed.

(** X14: while the counter stays below the largest [int],
    [get_next_global_id] hands out consecutive ids: the [i]-th of a run of
    calls returns the identifier made of the counter's start value plus [i]
    and of the name it was given; the ids of the run are pairwise distinct;
    the counter advances by the number of calls; and the configuration
    table and the kernel list are left alone. *)
Theorem get_next_global_ids_consecutive (names : list string) (p : Program) :
  - 2 ^ 31 <= global_id_counter_ p ->
  global_id_counter_ p + Z.of_nat (length names) < 2 ^ 31 ->
  let r := get_next_global_ids names p in
  r.1 = imap (fun i name =>
                {| identifier_id := global_id_counter_ p + Z.of_nat i;
                   identifier_name := name |}) names /\
  global_id_counter_ r.2 = global_id_counter_ p + Z.of_nat (length names) /\
  NoDup (identifier_id <$> r.1) /\
  configs r.2 = configs p /\ kernels r.2 = kernels p.
Proof.
  revert p. induction names as [|name names IH]; intros p Hlo Hhi; cbv zeta.
  - simpl. repeat split; try done; [lia | constructor].
  - cbn [get_next_global_ids]. unfold get_next_global_id.
    set (p1 := set_global_id_counter_ _ p).
    assert (Hc1 : global_id_counter_ p1 = global_id_counter_ p + 1).
    { subst p1. simpl. apply wrap_int_small. simpl in Hhi. lia. }
    specialize (IH p1). cbv zeta in IH. rewrite Hc1 in IH.
    destruct IH as (Hids & Hctr & Hnodup & Hcfg & Hker); [lia | simpl in Hhi; lia |].
    destruct (get_next_global_ids names p1) as [ids p2]. cbn [fst snd] in *.
    split; [| split; [| split; [| split]]].
    + rewrite imap_cons. f_equal; [f_equal; lia |].
      rewrite Hids. apply imap_ext. intros i x _. simpl. f_equal. lia.
    + rewrite Hctr. simpl. lia.
    + rewrite fmap_cons. simpl. apply NoDup_cons. split; [| done].
      rewrite Hids. intros [y [Hy1 Hy2]]%list_elem_of_fmap.
      apply list_elem_of_lookup in Hy2 as [i Hi].
      rewrite list_lookup_imap in Hi.
      destruct (names !! i); simplify_eq/=. lia.
    + by rewrite Hcfg.
    + by rewrite Hker.
Qed.

(** ** [get_program_impl] *)

(** X15: [get_program_impl] decides on the calling thread's
    configuration: it returns [program_impl_] when the architecture of that
    configuration uses LLVM and fails its assertion otherwise, where a
    thread without an entry is judged by the main thread's configuration.
    Either way the call has the effect of [this_thread_config]: the caller
    has an entry afterwards and no existing entry changes.  A repeated call
    gives the same result and changes nothing more. *)
Theorem get_program_impl_checks_caller (impl : ProgramImpl) (tid : ThreadId)
    (p : Program) :
  let c := match configs p !! tid with
           | Some c => c
           | None => default CompileConfig_default (configs p !! main_thread_id_ p)
           end in
  let r := get_program_impl impl tid p in
  r.1 = (if arch_uses_llvm (CompileConfig_arch c)
         then Returned impl else AssertionFailed) /\
  r.2 = (this_thread_config tid p).2 /\
  read_config tid r.2 = Some c /\
  (forall t v, configs p !! t = Some v -> configs r.2 !! t = Some v) /\
  get_program_impl impl tid r.2 = r.
Proof.
  cbv zeta.
  assert (Hgen : forall q v, configs q !! tid = Some v ->
            get_program_impl impl tid q
            = (if arch_uses_llvm (CompileConfig_arch v)
               then Returned impl else AssertionFailed, q)).
  { intros q v Hv. unfold get_program_impl.
    rewrite (this_thread_config_present tid q) by eauto.
    unfold read_config. rewrite Hv. by destruct (arch_uses_llvm _). }
  destruct (configs p !! tid) as [c|] eqn:Ht.
  - rewrite (Hgen p c Ht). simpl.
    rewrite (this_thread_config_present tid p) by eauto. simpl.
    unfold read_config. repeat split; try done. by apply Hgen.
  - set (c := default CompileConfig_default (configs p !! main_thread_id_ p)).
    assert (Hp1 : configs (this_thread_config tid p).2 !! tid = Some c).
    { rewrite (this_thread_config_absent tid p Ht). simpl. apply lookup_insert_eq. }
    assert (Hr : get_program_impl impl tid p
                 = (if arch_uses_llvm (CompileConfig_arch c)
                    then Returned impl else AssertionFailed,
                    (this_thread_config tid p).2)).
    { unfold get_program_impl.
      destruct (this_thread_config tid p) as [r p1] eqn:Hcall.
      assert (r = tid) as ->.
      { rewrite (this_thread_config_absent tid p Ht) in Hcall. by injection Hcall. }
      simpl in *. unfold read_config. rewrite Hp1.
      by destruct (arch_uses_llvm _). }
    rewrite Hr. simpl. unfold read_config.
    split; [done |]. split; [done |]. split; [done |]. split.
    + intros t v Hv. by apply this_thread_config_lookup_Some.
    + by apply Hgen.
Qed.

End FurtherProperties.

(** * The properties on the concrete instance *)

Section Concrete.
Local Existing Instance demo_externals.

Lemma JITEvaluatorId_eqb_every_field_witness :
  JITEvaluatorId_eqb (demo_id 1 "t") (demo_id 1 "t") = true /\
  JITEvaluatorId_eqb (demo_id 1 "t") (demo_id 2 "t") = false.
Proof.
  split.
  - apply (proj1 (JITEvaluatorId_eqb_every_field (H := demo_externals)
                     (demo_id 1 "t") (demo_id 1 "t"))).
    repeat split.
  - apply (proj2 (proj2 (JITEvaluatorId_eqb_every_field (H := demo_externals)
                            (demo_id 1 "t") (demo_id 2 "t")))).
    simpl. lia.
Defined.

Lemma hash_JITEvaluatorId_ignores_tb_witness :
  hash_JITEvaluatorId (demo_id 1 "here") = hash_JITEvaluatorId (demo_id 1 "there").
Proof.
  apply (proj1 (hash_JITEvaluatorId_ignores_tb (H := demo_externals)
                  (demo_id 1 "here") (demo_id 1 "there"))).
  repeat split.
Defined.

Lemma get_kernel_id_consecutive_witness :
  Z.of_nat 3 < 100000 /\
  get_kernel_id_calls 3 0 = Returned ([0; 1; 2], 3) /\
  get_kernel_id 3 = Returned (3, 4).
Proof.
  split; [lia |].
  destruct (get_kernel_id_consecutive 3 ltac:(lia)) as (Hcalls & Hnext & _).
  split; [exact Hcalls | exact Hnext].
Defined.

Lemma this_thread_config_lazy_copy_witness :
  let cs := [CallWriteConfig 0%nat (fun c => (7, c.2));
             CallThisThreadConfig 2%nat] in
  let p1 := (this_thread_config 1%nat demo_program).2 in
  configs demo_program !! 1%nat = None /\
  read_config 1%nat p1 = Some (5, false) /\
  this_thread_config 1%nat (run_calls cs p1) = (1%nat, run_calls cs p1).
Proof.
  cbv zeta. split; [reflexivity |].
  pose proof (this_thread_config_lazy_copy (H := demo_externals) 1%nat demo_program
                [CallWriteConfig (H := demo_externals) 0%nat (fun c => (7, c.2));
                 CallThisThreadConfig (H := demo_externals) 2%nat] eq_refl)
    as (_ & Hcopy & _ & _ & _ & Hlater).
  split; [exact Hcopy | exact Hlater].
Defined.

(** C7, as stated for every thread, fails for the main thread: in a new
    program of main thread 0 the entry of thread 0 is there before any
    call, and the first call of [this_thread_config] from thread 0 returns
    the reference to it and leaves the program, with its one entry, as it
    is: nothing is inserted and nothing is copied. *)
Lemma this_thread_config_main_thread_counterexample :
  let p := Program_new 0%nat (5, false) in
  configs p !! 0%nat = Some (5, false) /\
  this_thread_config 0%nat p = (0%nat, p) /\
  size (configs (this_thread_config 0%nat p).2) = size (configs p) /\
  size (configs p) = 1%nat /\
  size (configs (this_thread_config 1%nat p).2) = 2%nat.
Proof. cbv zeta. repeat split; by vm_compute. Qed.

Lemma this_thread_config_first_call_witness :
  let cs0 := [CallKernel "body" "ker" O; CallThisThreadConfig 2%nat; CallConfig] in
  let cs := [CallWriteConfig 0%nat (fun c => (7, c.2));
             CallWriteConfig 1%nat (fun c => (c.1, true))] in
  let p := run_calls cs0 (Program_new 0%nat (5, false)) in
  let p1 := (this_thread_config 1%nat p).2 in
  let p2 := run_calls cs p1 in
  1%nat <> 0%nat /\
  Forall (fun c => c <> CallThisThreadConfig 1%nat) cs0 /\
  configs p !! 1%nat = None /\
  read_config 1%nat p1 = read_config 0%nat p /\
  this_thread_config 1%nat p2 = (1%nat, p2) /\
  this_thread_config 0%nat p = (0%nat, p).
Proof.
  cbv zeta.
  assert (Hne : 1%nat <> 0%nat) by lia.
  assert (Hcs0 : Forall (fun c => c <> CallThisThreadConfig (H := demo_externals) 1%nat)
                   [CallKernel (H := demo_externals) "body" "ker" O;
                    CallThisThreadConfig (H := demo_externals) 2%nat;
                    CallConfig])
    by (repeat constructor; discriminate).
  split; [exact Hne |]. split; [exact Hcs0 |].
  destruct (this_thread_config_first_call (H := demo_externals) 0%nat 1%nat (5, false) _
              [CallWriteConfig (H := demo_externals) 0%nat (fun c => (7, c.2));
               CallWriteConfig (H := demo_externals) 1%nat (fun c => (c.1, true))]
              Hne Hcs0)
    as (Hnone & _ & _ & Hcopy & _ & _ & Hlater & Hmain & _).
  split; [exact Hnone |]. split; [exact Hcopy |]. split; [exact Hlater | exact Hmain].
Defined.

(** C3, as stated, fails when the writing thread is the main thread: the
    reference that [this_thread_config] hands the main thread is the entry
    that [config] reads.  Threads 0 (main) and 1 both have their
    configurations; thread 0 sets the debug flag; the configuration of
    thread 1 stays, the main thread's changes. *)
Lemma write_config_main_thread_counterexample :
  let T1 := 0%nat in
  let T2 := 1%nat in
  let r1 := (this_thread_config T1 demo_program).1 in
  let p1 := (this_thread_config T1 demo_program).2 in
  let r2 := (this_thread_config T2 p1).1 in
  let p2 := (this_thread_config T2 p1).2 in
  let p3 := write_config r1 (fun c => (c.1, true)) p2 in
  T1 <> T2 /\
  is_Some (read_config r1 p2) /\ is_Some (read_config r2 p2) /\
  read_config r2 p3 = read_config r2 p2 /\
  read_config (config p2).1 p2 = Some (5, false) /\
  read_config (config p3).1 p3 = Some (5, true) /\
  read_config (config p3).1 p3 <> read_config (config p2).1 p2.
Proof.
  cbv zeta. repeat split; try (by eexists); try reflexivity; try lia.
  vm_compute. discriminate.
Qed.

Lemma write_config_isolation_witness :
  let T1 := 1%nat in
  let T2 := 2%nat in
  let p2 := (this_thread_config T2 (this_thread_config T1 demo_program).2).2 in
  let p3 := write_config T1 (fun c => (c.1, true)) p2 in
  T1 <> T2 /\
  read_config T2 p3 = read_config T2 p2 /\
  read_config (config p3).1 p3 = read_config (config p2).1 p2.
Proof.
  cbv zeta. split; [lia |].
  pose proof (write_config_isolation (H := demo_externals) 1%nat 2%nat
                (fun c => (c.1, true)) demo_program ltac:(lia))
    as (_ & _ & Hother & Hmain).
  split; [exact Hother | apply Hmain; simpl; lia].
Defined.

Lemma kernel_appends_witness :
  let r := (kernel (H := demo_externals) "body" "ker" O demo_program).1 in
  let p1 := (kernel (H := demo_externals) "body" "ker" O demo_program).2 in
  kernels p1 = [r.2] /\
  kernels p1 `prefix_of`
    kernels (run_calls [CallKernel "body2" "ker2" O;
                        CallCreateFunction "f"] p1).
Proof.
  cbv zeta. split.
  - apply (kernel_appends (H := demo_externals) "body" "ker" O demo_program []).
  - apply (kernel_appends (H := demo_externals) "body2" "ker2" O
             (kernel (H := demo_externals) "body" "ker" O demo_program).2
             [CallKernel (H := demo_externals) "body2" "ker2" O;
              CallCreateFunction (H := demo_externals) "f"]).
Defined.

Lemma allocate_snode_tree_id_lifo_witness :
  let t := Build_SNodeTree 1 "y" in
  (allocate_snode_tree_id demo_forest).1 = 3 /\
  live_snode_tree demo_forest t /\
  (allocate_snode_tree_id (destroy_snode_tree t demo_forest)).1 = 1.
Proof.
  cbv zeta.
  pose proof (allocate_snode_tree_id_lifo (H := demo_externals) demo_forest
                (Build_SNodeTree (H := demo_externals) 1 "y")
                (Build_SNodeTree (H := demo_externals) 1 "y"))
    as (_ & _ & _ & _ & Hscenario).
  destruct (Hscenario 0%nat (5, false) ["x"; "y"; "z"]) as (_ & Hnext & Hreuse).
  split; [exact Hnext |].
  destruct (Hreuse (Build_SNodeTree (H := demo_externals) 1 "y")) as (Hlive & Hk & _).
  - apply list_elem_of_lookup. exists 1%nat. reflexivity.
  - split; [exact Hlive | exact Hk].
Defined.

Lemma destroy_snode_tree_invalidates_witness :
  let t := Build_SNodeTree 1 "y" in
  let p1 := destroy_snode_tree t demo_forest in
  live_snode_tree demo_forest t /\
  get_snode_root 1 demo_forest = Returned "y" /\
  free_snode_tree_ids_ p1 = [1] /\
  get_snode_root 1 p1 = AssertionFailed /\
  get_snode_root 1 (add_snode_tree "w" false p1).2 = Returned "w".
Proof.
  cbv zeta.
  assert (Hlive : live_snode_tree demo_forest (Build_SNodeTree (H := demo_externals) 1 "y"))
    by reflexivity.
  split; [exact Hlive |].
  pose proof (destroy_snode_tree_invalidates (H := demo_externals) demo_forest _ Hlive)
    as (Hroot & Hfree & _ & Hfail & _ & Hagain & _).
  split; [exact Hroot |]. split; [exact Hfree |]. split; [exact Hfail |].
  apply (Hagain "w" false).
Defined.

Lemma create_function_one_per_key_witness :
  let f1 := (create_function "f" demo_program).1 in
  let p1 := (create_function "f" demo_program).2 in
  let p2 := run_calls [CallCreateFunction "g"] p1 in
  create_function "f" p2 = (f1, p2) /\
  (create_function "h" p2).1 <> f1.
Proof.
  cbv zeta.
  pose proof (create_function_one_per_key (H := demo_externals) 0%nat (5, false) []
                [CallCreateFunction (H := demo_externals) "g"] "f" "h")
    as (Hsame & _ & Hdiff & _).
  split; [exact Hsame | apply Hdiff; discriminate].
Defined.


End Concrete.

(** * The further properties on the concrete instance *)

Section FurtherConcrete.
Local Existing Instance demo_externals.
Local Existing Instance demo_backend.

Lemma hash_JITEvaluatorId_low_word_witness :
  hash_JITEvaluatorId (demo_id 1 "t") mod 2 ^ 32
  = hash_JITEvaluatorId (demo_id 2 "u") mod 2 ^ 32.
Proof.
  apply (hash_JITEvaluatorId_low_word (H := demo_externals)
           (demo_id 1 "t") (demo_id 2 "u")); reflexivity.
Defined.

Lemma hash_JITEvaluatorId_small_injective_witness :
  small_fields (demo_id 1 "here") /\
  small_fields (demo_id 1 "there") /\
  hash_JITEvaluatorId (demo_id 1 "here")
  = 3 + 1 * 2 ^ 8 + 1 * 2 ^ 16 + 2 * 2 ^ 24 + 1 * 2 ^ 31 + 1 * 2 ^ 32.
Proof.
  assert (Hsmall : forall s, small_fields (demo_id 1 s))
    by (intros s; unfold small_fields; simpl; lia).
  split; [apply Hsmall |]. split; [apply Hsmall |].
  apply (hash_JITEvaluatorId_small_injective (H := demo_externals)
           (demo_id 1 "here") (demo_id 1 "there") (Hsmall _) (Hsmall _)).
Defined.

Lemma config_changed_only_by_write_witness :
  let cs := [CallThisThreadConfig 2%nat;
             CallWriteConfig 0%nat (fun c => (7, c.2));
             CallWriteConfig 2%nat (fun c => (c.1, true));
             CallKernel "body" "ker" O;
             CallConfig] in
  let p := (this_thread_config 1%nat demo_program).2 in
  Forall (fun c => header_call c = true /\ writes_config 1%nat c = false) cs /\
  configs p !! 1%nat = Some (5, false) /\
  configs (run_calls cs p) !! 1%nat = Some (5, false).
Proof.
  cbv zeta.
  assert (Hcs : Forall (fun c => header_call c = true /\
                                 writes_config (H := demo_externals) 1%nat c = false)
                  [CallThisThreadConfig (H := demo_externals) 2%nat;
                   CallWriteConfig (H := demo_externals) 0%nat (fun c => (7, c.2));
                   CallWriteConfig (H := demo_externals) 2%nat (fun c => (c.1, true));
                   CallKernel (H := demo_externals) "body" "ker" O;
                   CallConfig])
    by (repeat constructor).
  split; [exact Hcs |]. split; [reflexivity |].
  apply (config_changed_only_by_write (H := demo_externals) 1%nat (5, false) _ _ Hcs).
  reflexivity.
Defined.

Lemma this_thread_config_copies_current_main_witness :
  let p1 := write_config 0%nat (fun c => (c.1, true)) demo_program in
  configs demo_program !! main_thread_id_ demo_program = Some (5, false) /\
  configs demo_program !! 1%nat = None /\
  read_config 1%nat (this_thread_config 1%nat p1).2 = Some (5, true).
Proof.
  cbv zeta. split; [reflexivity |]. split; [reflexivity |].
  apply (this_thread_config_copies_current_main (H := demo_externals) 1%nat
           (fun c => (c.1, true)) (5, false) demo_program eq_refl eq_refl).
Defined.

Lemma header_calls_keep_main_thread_witness :
  let cs := [CallThisThreadConfig 2%nat;
             CallWriteConfig 0%nat (fun c => (7, c.2));
             CallGetNextGlobalId "x"] in
  Forall (fun c => header_call c = true) cs /\
  main_thread_id_ (run_calls cs demo_program) = 0%nat.
Proof.
  cbv zeta.
  assert (Hcs : Forall (fun c => header_call c = true)
                  [CallThisThreadConfig (H := demo_externals) 2%nat;
                   CallWriteConfig (H := demo_externals) 0%nat (fun c => (7, c.2));
                   CallGetNextGlobalId "x"])
    by (repeat constructor).
  split; [exact Hcs |].
  apply (header_calls_keep_main_thread (H := demo_externals) _ demo_program Hcs).
Defined.

Lemma kernels_of_header_calls_witness :
  let cs := [CallKernel "b1" "k1" O;
             CallThisThreadConfig 2%nat;
             CallKernel "b2" "k2" O] in
  Forall (fun c => header_call c = true) cs /\
  kernel_name <$> kernels (run_calls cs demo_program) = ["k1"; "k2"] /\
  (kernel (H := demo_externals) "b3" "k3" O (run_calls cs demo_program)).1.1 = 2%nat.
Proof.
  cbv zeta.
  assert (Hcs : Forall (fun c => header_call c = true)
                  [CallKernel (H := demo_externals) "b1" "k1" O;
                   CallThisThreadConfig (H := demo_externals) 2%nat;
                   CallKernel (H := demo_externals) "b2" "k2" O])
    by (repeat constructor).
  split; [exact Hcs |].
  destruct (kernels_of_header_calls (H := demo_externals) _ demo_program
              "b3" "k3" O Hcs) as (Heq & _ & Hidx).
  split; [by rewrite Heq | exact Hidx].
Defined.

Lemma get_next_global_ids_consecutive_witness :
  - 2 ^ 31 <= global_id_counter_ demo_program /\
  global_id_counter_ demo_program + Z.of_nat (length ["a"; "b"]) < 2 ^ 31 /\
  identifier_id <$> (get_next_global_ids ["a"; "b"] demo_program).1 = [0; 1] /\
  global_id_counter_ (get_next_global_ids ["a"; "b"] demo_program).2 = 2.
Proof.
  assert (Hlo : - 2 ^ 31 <= global_id_counter_ demo_program) by (simpl; lia).
  assert (Hhi : global_id_counter_ demo_program + Z.of_nat (length ["a"; "b"]) < 2 ^ 31)
    by (simpl; lia).
  split; [exact Hlo |]. split; [exact Hhi |].
  destruct (get_next_global_ids_consecutive (H := demo_externals)
              ["a"; "b"] demo_program Hlo Hhi) as (Hids & Hctr & _).
  split; [by rewrite Hids | exact Hctr].
Defined.

End FurtherConcrete.
